(** * The downloader of [src/de.py]: a shallow embedding and its properties

    The Python module is embedded function by function.  Python strings are
    lists of characters (code points below 256), the file system is a finite
    map from normalised paths to contents, the event bus, the log and the
    network are traces carried in an explicit state, and exceptions are
    values of an error type threaded by a small monad.  Name lookup in the
    module namespace is explicit, because three names the functions read
    ([download_path], [hass], [req]) are not bound by the module itself. *)

From Stdlib Require Import Ascii String List Bool Arith Lia.
From Stdlib Require Import Decimal DecimalNat DecimalString.
From stdpp Require Import base option list gmap strings.

Local Open Scope list_scope.

(** ** Python strings *)

Module Str.

Definition str := list ascii.

(** A string literal of the source. *)
Definition py (s : string) : str := list_ascii_of_string s.

Definition sep : ascii := "/"%char.
Definition extsep : ascii := "."%char.

Definition eqc (a b : ascii) : bool := Ascii.eqb a b.

(** [bool(s)] for a string: non-empty. *)
Definition truthy (s : str) : bool :=
  match s with [] => false | _ :: _ => true end.

(** [str.isspace] on one character, and the class [\s] of [re] for [str]
    patterns: the code points below 256 for which CPython's
    [Py_UNICODE_ISSPACE] holds. *)
Definition isspace (c : ascii) : bool :=
  let n := nat_of_ascii c in
  ((9 <=? n) && (n <=? 13)) || ((28 <=? n) && (n <=? 32))
  || (n =? 133) || (n =? 160).

(** [s.lstrip(chars)], [s.rstrip(chars)] and [s.strip(chars)], the set of
    characters given as a predicate. *)
Fixpoint lstrip (f : ascii -> bool) (s : str) : str :=
  match s with
  | c :: s' => if f c then lstrip f s' else s
  | [] => []
  end.

Definition rstrip (f : ascii -> bool) (s : str) : str :=
  rev (lstrip f (rev s)).

Definition strip (f : ascii -> bool) (s : str) : str :=
  rstrip f (lstrip f s).

(** [s.startswith(p)]. *)
Fixpoint startswith (p s : str) : bool :=
  match p, s with
  | [], _ => true
  | a :: p', b :: s' => eqc a b && startswith p' s'
  | _ :: _, [] => false
  end.

(** [s.endswith("/")]. *)
Definition endswith_sep (s : str) : bool :=
  match rev s with
  | c :: _ => eqc c sep
  | [] => false
  end.

(** The longest prefix of characters satisfying [f], and the rest. *)
Fixpoint span (f : ascii -> bool) (s : str) : str * str :=
  match s with
  | c :: s' =>
      if f c then let '(a, b) := span f s' in (c :: a, b) else ([], s)
  | [] => ([], [])
  end.

(** The decimal rendering of a natural number, as [f"{tries}"] gives it. *)
Definition of_nat (n : nat) : str :=
  list_ascii_of_string (NilEmpty.string_of_uint (Nat.to_uint n)).

End Str.

Import Str.

(** ** [os.path] for POSIX paths *)

Module Path.

(** [os.path.isabs]. *)
Definition isabs (p : str) : bool :=
  match p with
  | c :: _ => eqc c sep
  | [] => false
  end.

(** [os.path.join(a, b)]: an absolute [b] replaces [a]; otherwise one
    separator is put between them unless [a] is empty or ends with one. *)
Definition join (a b : str) : str :=
  if isabs b then b
  else if negb (truthy a) || endswith_sep a then a ++ b
  else a ++ sep :: b.

(** The pieces of a path between separators: [p.split("/")]. *)
Fixpoint split (p : str) : list str :=
  match p with
  | [] => [[]]
  | c :: p' =>
      if eqc c sep then [] :: split p'
      else match split p' with
           | h :: t => (c :: h) :: t
           | [] => [[c]]
           end
  end.

(** A path cut after its last separator: [(p[:i], p[i:])] for
    [i = p.rfind("/") + 1]. *)
Fixpoint rsplit (p : str) : str * str :=
  match p with
  | [] => ([], [])
  | c :: p' =>
      let '(h, t) := rsplit p' in
      if truthy h then (c :: h, t)
      else if eqc c sep then ([c], t)
      else ([], c :: t)
  end.

(** [os.path.basename]: what follows the last separator. *)
Definition basename (p : str) : str := (rsplit p).2.

(** The part of a path up to and including its last separator;
    [os.path.dirname] is this part without its trailing separators. *)
Definition dirpart (p : str) : str := (rsplit p).1.

(** The index of the last dot of a name: [name.rfind(".")]. *)
Fixpoint rfind_dot (s : str) : option nat :=
  match s with
  | [] => None
  | c :: s' =>
      match rfind_dot s' with
      | Some i => Some (S i)
      | None => if eqc c extsep then Some 0 else None
      end
  end.

(** [os.path.splitext] on the last piece of a path: the extension starts
    at the last dot, unless only dots precede that dot. *)
Definition splitext_name (name : str) : str * str :=
  match rfind_dot name with
  | Some i =>
      if forallb (fun c => eqc c extsep) (firstn i name)
      then (name, [])
      else (firstn i name, skipn i name)
  | None => (name, [])
  end.

(** [os.path.splitext]: the extension is looked for after the last
    separator only. *)
Definition splitext (p : str) : str * str :=
  let '(root, ext) := splitext_name (basename p) in
  (dirpart p ++ root, ext).

(** A directory prefix: empty, or ending with the separator. *)
Definition dirlike (h : str) : Prop := h = [] \/ exists h', h = h' ++ [sep].

(** The names a path walks through: its pieces other than the empty one
    and [.]. *)
Definition components (p : str) : list str :=
  filter (fun c => c <> [] /\ c <> [extsep]) (split p).

(** The normalised path the file system is keyed by: whether the path is
    absolute, and its names.  Symbolic links are not modelled and [..] is
    kept as a name. *)
Definition key : Type := bool * list str.

Definition key_of (p : str) : key := (isabs p, components p).

(** The directory a path lies in: the key of [os.path.dirname]. *)
Definition parent_of (p : str) : key := key_of (dirpart p).

(** All the non-empty prefixes of a key, shortest first. *)
Definition ancestors (k : key) : list key :=
  map (fun n => (k.1, firstn n k.2)) (seq 1 (length k.2)).

Definition dotdot : str := [extsep; extsep].

(** [under d k]: [k] is [d] or lies in the tree below it: it extends [d]
    by names none of which is [..]. *)
Definition under (d k : key) : bool :=
  bool_decide (d.1 = k.1)
  && bool_decide (firstn (length d.2) k.2 = d.2)
  && forallb (fun c => negb (bool_decide (c = dotdot))) (skipn (length d.2) k.2).

End Path.

Import Path.

(** ** The machine: file system, event bus, log, network *)

Module Machine.

(** The file system: the regular files with their contents, and the
    directories.  The root and the current directory (the keys without
    names) always exist. *)
Record fsys : Type := Fsys {
  files : gmap key str;
  dirs : gset key
}.

(** [os.path.isfile]. *)
Definition isfile (f : fsys) (p : str) : bool :=
  bool_decide (is_Some (files f !! key_of p)).

Definition isdir_key (f : fsys) (k : key) : bool :=
  bool_decide (k.2 = []) || bool_decide (k ∈ dirs f).

(** An event on the bus: its type and the payload [url], [filename]
    ([None] is Python's [None]). *)
Record event : Type := Event {
  ev_type : str;
  ev_url : str;
  ev_filename : option str
}.

Inductive level : Type := DEBUG | WARNING | ERROR.

(** The state a request runs in: the file system, the events fired so far
    (oldest first), the log records written and the URLs requested. *)
Record state : Type := State {
  fs : fsys;
  bus : list event;
  log : list level;
  net : list str
}.

(** The exceptions the program meets.  [UnboundLocalError] is a subclass
    of [NameError]; [RequestError] stands for the exceptions of [requests]
    that are neither a [ConnectionError] nor a [ValueError]. *)
Inductive exn : Type :=
  | NameError (name : string)
  | UnboundLocalError (name : string)
  | ValueError
  | ConnectionError
  | OSError
  | RequestError.

(** [isinstance(e, NameError)]. *)
Definition is_NameError (e : exn) : bool :=
  match e with
  | NameError _ | UnboundLocalError _ => true
  | _ => false
  end.

(** How a call ends: with a value, with an exception, or with the loop
    budget of the model used up. *)
Inductive outcome (A : Type) : Type :=
  | Ok (a : A)
  | Raise (e : exn)
  | OutOfFuel.
Arguments Ok {A} a.
Arguments Raise {A} e.
Arguments OutOfFuel {A}.

Definition M (A : Type) : Type := state -> outcome A * state.

Definition ret {A} (a : A) : M A := fun st => (Ok a, st).

Definition bind {A B} (m : M A) (k : A -> M B) : M B :=
  fun st =>
    match m st with
    | (Ok a, st') => k a st'
    | (Raise e, st') => (Raise e, st')
    | (OutOfFuel, st') => (OutOfFuel, st')
    end.

Definition raise {A} (e : exn) : M A := fun st => (Raise e, st).

(** One statement [m] of a [try] block whose [except] clause is [h], and
    the rest [k] of the block.  The handler is given per statement, since
    it reads the local variables as they are bound at that point; what the
    handler raises is not handled again. *)
Definition try_ {A B} (m : M A) (h : exn -> M B) (k : A -> M B) : M B :=
  fun st =>
    match m st with
    | (Ok a, st') => k a st'
    | (Raise e, st') => h e st'
    | (OutOfFuel, st') => (OutOfFuel, st')
    end.

Definition get_fs : M fsys := fun st => (Ok (fs st), st).

Definition put_fs (f : fsys) : M unit :=
  fun st => (Ok tt, State f (bus st) (log st) (net st)).

(** [_LOGGER.debug], [_LOGGER.warning], [_LOGGER.exception]. *)
Definition logger (l : level) : M unit :=
  fun st => (Ok tt, State (fs st) (bus st) (log st ++ [l]) (net st)).

(** [bus.fire(event_type, {"url": url, "filename": filename})]. *)
Definition bus_fire (ty url : str) (filename : option str) : M unit :=
  fun st => (Ok tt, State (fs st) (bus st ++ [Event ty url filename]) (log st) (net st)).

(** [os.makedirs(p, exist_ok=True)]: every missing directory on the way
    to [p] is created; it fails when a regular file is in the way. *)
Definition makedirs (p : str) : M unit :=
  fun st =>
    let k := key_of p in
    if existsb (fun a => bool_decide (is_Some (files (fs st) !! a))) (ancestors k)
    then (Raise OSError, st)
    else put_fs (Fsys (files (fs st)) (dirs (fs st) ∪ list_to_set (ancestors k))) st.

(** [open(p, "wb")]: the file is created or truncated; it fails when [p]
    names a directory or when the directory of [p] does not exist. *)
Definition open_wb (p : str) : M unit :=
  fun st =>
    if isdir_key (fs st) (key_of p) || negb (isdir_key (fs st) (parent_of p))
    then (Raise OSError, st)
    else put_fs (Fsys (<[key_of p := []]> (files (fs st))) (dirs (fs st))) st.

(** [fil.write(chunk)] on the file opened at [p]. *)
Definition write (p chunk : str) : M unit :=
  fun st =>
    put_fs (Fsys (<[key_of p := default [] (files (fs st) !! key_of p) ++ chunk]>
                    (files (fs st))) (dirs (fs st))) st.

(** [os.remove(p)]. *)
Definition os_remove (p : str) : M unit :=
  fun st =>
    if isfile (fs st) p
    then put_fs (Fsys (delete (key_of p) (files (fs st))) (dirs (fs st))) st
    else (Raise OSError, st).

(** An HTTP response as [requests] gives it with [stream=True]: the
    status, the [content-disposition] header when present, the chunks
    [iter_content] yields and the exception it raises after them, if the
    stream breaks. *)
Record response : Type := Response {
  status_code : nat;
  content_disposition : option str;
  chunks : list str;
  stream_error : option exn
}.

(** What [requests.get] does for a URL. *)
Inductive reply : Type :=
  | Fails (e : exn)
  | Responds (r : response).

(** The module namespace at the time of a call, for the three names the
    functions read and the module does not bind. *)
Record genv : Type := Genv {
  g_download_path : option str;
  g_hass : bool;
  g_req : option response
}.

(** The namespace as the module leaves it: [download_path] and [hass] are
    locals of [setup], and [req] is a local of [download_and_save_file]. *)
Definition module_globals : genv := Genv None false None.

End Machine.

Import Machine.

Declare Scope py_scope.
Delimit Scope py_scope with py_.
Notation "x <- m ;; k" := (bind m (fun x => k))
  (at level 100, m at next level, right associativity) : py_scope.
Notation "m ;;; k" := (bind m (fun _ => k))
  (at level 100, right associativity) : py_scope.
Local Open Scope py_scope.

(** ** The module [de.py] *)

Module Downloader.

Definition DOMAIN : str := py "downloader".
Definition DOWNLOAD_FAILED_EVENT : str := py "download_failed".
Definition DOWNLOAD_COMPLETED_EVENT : str := py "download_completed".

(** The event types [f"{DOMAIN}_{...}"]. *)
Definition failed_event : str := DOMAIN ++ py "_" ++ DOWNLOAD_FAILED_EVENT.
Definition completed_event : str := DOMAIN ++ py "_" ++ DOWNLOAD_COMPLETED_EVENT.

(** [re.findall(r"filename=(\S+)", s)], as far as the program looks at it:
    the group of the leftmost match, if there is a match. *)
Fixpoint findall_first (s : str) : option str :=
  match s with
  | [] => None
  | _ :: s' =>
      if startswith (py "filename=") s then
        let '(v, _) := span (fun c => negb (isspace c)) (skipn 9 s) in
        if truthy v then Some v else findall_first s'
      else findall_first s'
  end.

(** The characters the header value is stripped of: the apostrophe, the
    double quote and the blank. *)
Definition quote_or_blank (c : ascii) : bool :=
  eqc c (ascii_of_nat 39) || eqc c (ascii_of_nat 34) || eqc c (ascii_of_nat 32).

(** [bool(x)] for a value that is [None] or a string. *)
Definition truthy_opt (o : option str) : bool :=
  match o with Some s => truthy s | None => false end.

(** [f"{path}_{tries}.{ext}"]. *)
Definition candidate (path ext : str) (tries : nat) : str :=
  path ++ py "_" ++ of_nat tries ++ py "." ++ ext.

(** The [while] loop of [ensure_unique_filename], run for at most [fuel]
    further iterations. *)
Fixpoint unique_loop (f : fsys) (path ext : str) (fuel tries : nat)
    (final_path : str) : option str :=
  if isfile f final_path then
    match fuel with
    | 0 => None
    | S fuel' =>
        unique_loop f path ext fuel' (S tries) (candidate path ext (S tries))
    end
  else Some final_path.

Section Program.

(** [raise_if_invalid_path] and [raise_if_invalid_filename] come from
    [homeassistant.util], outside the module: what they reject is a
    parameter. *)
Variable invalid_path : str -> bool.
Variable invalid_filename : str -> bool.

(** The network, and the module namespace at the time of the call. *)
Variable server : str -> reply.
Variable G : genv.

Definition raise_if_invalid_path (p : str) : M unit :=
  if invalid_path p then raise ValueError else ret tt.

Definition raise_if_invalid_filename (p : str) : M unit :=
  if invalid_filename p then raise ValueError else ret tt.

(** Reading a global name. *)
Definition global_download_path : M str :=
  match g_download_path G with
  | Some d => ret d
  | None => raise (NameError "download_path")
  end.

Definition global_hass : M unit :=
  if g_hass G then ret tt else raise (NameError "hass").

Definition global_req : M response :=
  match g_req G with
  | Some r => ret r
  | None => raise (NameError "req")
  end.

(** [requests.get(url, stream=True, timeout=10)]. *)
Definition requests_get (url : str) : M response :=
  fun st =>
    let st' := State (fs st) (bus st) (log st) (net st ++ [url]) in
    match server url with
    | Fails e => (Raise e, st')
    | Responds r => (Ok r, st')
    end.

(** [for chunk in req.iter_content(1024): fil.write(chunk)]. *)
Fixpoint write_chunks (p : str) (cs : list str) : M unit :=
  match cs with
  | [] => ret tt
  | c :: cs' => write p c ;;; write_chunks p cs'
  end.

Definition stream_to (p : str) (r : response) : M unit :=
  write_chunks p (chunks r) ;;;
  match stream_error r with
  | Some e => raise e
  | None => ret tt
  end.

Definition handle_download_failure (url : str) (filename : option str)
    (final_path : str) (exception : option exn) : M unit :=
  match exception with
  | Some _ => logger ERROR
  | None => ret tt
  end ;;;
  f <- get_fs ;;
  (if truthy final_path && isfile f final_path
   then os_remove final_path else ret tt) ;;;
  global_hass ;;;
  bus_fire failed_event url filename.

Definition download_and_save_file (url final_path : str) : M unit :=
  req <- requests_get url ;;
  if status_code req =? 200 then
    open_wb final_path ;;;
    stream_to final_path req
  else
    logger WARNING ;;;
    handle_download_failure url None final_path None.

Definition ensure_unique_filename (final_path : str) : M str :=
  f <- get_fs ;;
  let '(path, ext) := splitext final_path in
  match unique_loop f path ext (S (size (files f))) 1 final_path with
  | Some p => ret p
  | None => fun st => (OutOfFuel, st)
  end.

Definition create_final_path (download_path subdir filename : str)
    (overwrite : bool) : M str :=
  final_path <-
    (if truthy subdir then
       let subdir_path := join download_path subdir in
       makedirs subdir_path ;;;
       ret (join subdir_path filename)
     else ret (join download_path filename)) ;;
  if negb overwrite then ensure_unique_filename final_path
  else ret final_path.

Definition resolve_filename (url : str) (filename : option str) : M str :=
  filename <-
    (if negb (truthy_opt filename) then
       req <- global_req ;;
       match content_disposition req with
       | Some h =>
           match findall_first h with
           | Some m => ret (Some (strip quote_or_blank m))
           | None => ret filename
           end
       | None => ret filename
       end
     else ret filename) ;;
  if negb (truthy_opt filename) then ret (strip isspace (basename url))
  else ret (default [] filename).

(** [except (requests.exceptions.ConnectionError, ValueError)]. *)
Definition caught (e : exn) : bool :=
  match e with
  | ConnectionError | ValueError => true
  | _ => false
  end.

(** The [except] clause of [do_download], with the locals [filename] and
    [final_path] as they are when the exception arrives; [final_path] is
    [None] as long as it is not assigned. *)
Definition except (url : str) (filename : option str)
    (final_path : option str) (e : exn) : M unit :=
  if caught e then
    match final_path with
    | Some p => handle_download_failure url filename p (Some e)
    | None => raise (UnboundLocalError "final_path")
    end
  else raise e.

Definition do_download (url : str) (subdir filename : option str)
    (overwrite : bool) : M unit :=
  let subdir := default [] subdir in
  try_ (raise_if_invalid_path subdir) (except url filename None) (fun _ =>
  try_ (resolve_filename url filename) (except url filename None) (fun fname =>
  try_ (raise_if_invalid_filename fname) (except url (Some fname) None) (fun _ =>
  try_ (download_path <- global_download_path ;;
        create_final_path download_path subdir fname overwrite)
       (except url (Some fname) None) (fun final_path =>
  try_ (logger DEBUG ;;;
        download_and_save_file url final_path ;;;
        logger DEBUG ;;;
        global_hass ;;;
        bus_fire completed_event url (Some fname))
       (except url (Some fname) (Some final_path)) ret)))).

End Program.

End Downloader.

Import Downloader.

(** ** The validators the spec describes *)

Module SpecValidator.

(** Characters forbidden in names on common file systems. *)
Definition forbidden (c : ascii) : bool :=
  existsb (eqc c) (ascii_of_nat 0 :: py "\:*?<>|" ++ [ascii_of_nat 34]).

Definition has_parent_segment (p : str) : bool :=
  existsb (fun c => bool_decide (c = dotdot)) (split p).

(** Modelled from the spec: [raise_if_invalid_path] of [homeassistant.util]
    is not part of the module; section 4.1 has it reject values containing
    parent-directory segments, absolute-path prefixes, or characters
    forbidden on common filesystems. *)
Definition invalid_path (p : str) : bool :=
  has_parent_segment p || isabs p || existsb forbidden p.

(** Modelled from the spec: [raise_if_invalid_filename] of
    [homeassistant.util] is not part of the module; section 4.1 applies
    the same rejection to the candidate filename, in which the separator
    is a forbidden character as well. *)
Definition invalid_filename (p : str) : bool :=
  invalid_path p || existsb (eqc sep) p.

End SpecValidator.

(** ** Vocabulary of the statements *)

Module Vocabulary.

(** The last name of the path the loop tries at [tries = k]. *)
Definition piece (r e : str) (k : nat) : str :=
  r ++ py "_" ++ of_nat k ++ py "." ++ e.

(** The directory a request is stored in. *)
Definition target_dir (download_path subdir : str) : str :=
  if truthy subdir then join download_path subdir else download_path.

(** [grows D st st']: every file of [st'] is a file of [st] or has its key
    in [D]. *)
Definition grows (D : key -> Prop) (st st' : state) : Prop :=
  forall k, is_Some (files (fs st') !! k) -> is_Some (files (fs st) !! k) \/ D k.

(** [spec D Q m]: [m] adds files in [D] only, and returns values in [Q]. *)
Definition spec {A} (D : key -> Prop) (Q : A -> Prop) (m : M A) : Prop :=
  forall st r st', m st = (r, st') ->
    grows D st st' /\ (forall a, r = Ok a -> Q a).

(** What the spec says the validators reject. *)
Definition path_validator_ok (invalid_path : str -> bool) : Prop :=
  forall s, invalid_path s = false -> isabs s = false /\ dotdot ∉ components s.

Definition filename_validator_ok (invalid_filename : str -> bool) : Prop :=
  forall s, invalid_filename s = false -> (sep ∉ s) /\ s <> dotdot.

(** The keys below the configured download directory. *)
Definition in_download_dir (G : genv) (k : key) : Prop :=
  exists dp, g_download_path G = Some dp /\ under (key_of dp) k = true.

(** The filename of the header, stripped, when the header has a token. *)
Definition header_name (r : response) : option str :=
  match content_disposition r with
  | Some h =>
      match findall_first h with
      | Some m => Some (strip quote_or_blank m)
      | None => None
      end
  | None => None
  end.

(** The last segment of the URL, trimmed. *)
Definition url_name (url : str) : str := strip isspace (basename url).

(** The sources of a filename in the order of their precedence: each one
    is used when it is not empty. *)
Definition resolved_name (r : response) (url : str) (filename : option str) : str :=
  if truthy_opt filename then default [] filename
  else match header_name r with
       | Some m => if truthy m then m else url_name url
       | None => url_name url
       end.

(** The allocation of the path followed by the fetch, in the order
    [do_download] runs them; the path written to is returned. *)
Definition allocate_and_fetch (server : str -> reply) (G : genv)
    (download_path subdir filename : str) (overwrite : bool) (url : str) : M str :=
  final_path <- create_final_path download_path subdir filename overwrite ;;
  download_and_save_file server G url final_path ;;;
  ret final_path.

End Vocabulary.

Import Vocabulary.

(** ** Objects of the examples *)

Module Examples.

Definition url_test : str := py "http://x/test.txt".

(** A file system that holds the download directory [/d] and nothing else. *)
Definition fs0 : fsys := Fsys ∅ {[ (true, [py "d"]) ]}.
Definition st0 : state := State fs0 [] [] [].

(** The same with [/d/test.txt] downloaded before, and with both
    [/d/test.txt] and the first renamed copy. *)
Definition fs1 : fsys :=
  Fsys {[ (true, [py "d"; py "test.txt"]) := py "hello" ]} {[ (true, [py "d"]) ]}.
Definition st1 : state := State fs1 [] [] [].

Definition fs2 : fsys :=
  Fsys (<[ (true, [py "d"; py "test_2..txt"]) := py "hello" ]> (files fs1))
       {[ (true, [py "d"]) ]}.
Definition st2 : state := State fs2 [] [] [].

(** A file [/d/f] without extension. *)
Definition fs3 : fsys :=
  Fsys {[ (true, [py "d"; py "f"]) := py "hello" ]} {[ (true, [py "d"]) ]}.
Definition st3 : state := State fs3 [] [] [].

Definition hello : response := Response 200 None [py "hel"; py "lo"] None.
Definition not_found : response := Response 404 None [] None.
Definition broken : response := Response 200 None [py "hel"] (Some ConnectionError).

Definition server_hello (_ : str) : reply := Responds hello.
Definition server_404 (_ : str) : reply := Responds not_found.
Definition server_broken (_ : str) : reply := Responds broken.

(** A namespace in which the three names are bound, as a caller that
    sets them before the call would have it. *)
Definition bound_globals : genv := Genv (Some (py "/d")) true (Some hello).

Definition a_header : response :=
  Response 200 (Some (py "attachment; filename='report.pdf'")) [] None.

(** A namespace in which only [req] is bound, to a response with a
    [content-disposition] header. *)
Definition header_globals : genv := Genv None false (Some a_header).

End Examples.

Import Examples.

(** ** Vocabulary of the further properties *)

Module Further.

(** The files once the cleanup of [handle_download_failure] has run for
    [final_path]. *)
Definition cleaned (final_path : str) (m : gmap key str) : gmap key str :=
  if truthy final_path then delete (key_of final_path) m else m.


(** The last statements of the [try] block of [do_download], under its
    [except] clause, once [filename] and [final_path] are assigned. *)
Definition fetch_and_report (server : str -> reply) (G : genv)
    (url fname final_path : str) : M unit :=
  try_ (logger DEBUG ;;;
        download_and_save_file server G url final_path ;;;
        logger DEBUG ;;;
        global_hass G ;;;
        bus_fire completed_event url (Some fname))
       (except G url (Some fname) (Some final_path)) ret.

(** What a request that returns has put on the bus: [download_completed]
    alone, [download_failed] followed by [download_completed], or
    [download_failed] alone. *)
Definition reported (url f : str) (old new : list event) : Prop :=
  new = old ++ [Event completed_event url (Some f)]
  \/ new = old ++ [Event failed_event url None; Event completed_event url (Some f)]
  \/ new = old ++ [Event failed_event url (Some f)].

(** A request that gets as far as the fetch: both validators accept it,
    the filename resolves to [f], and the allocator returns [p], leaving
    the state [st1]. *)
Definition reaches_fetch (invalid_path invalid_filename : str -> bool) (G : genv)
    (url : str) (subdir filename : option str) (overwrite : bool) (st : state)
    (f p : str) (st1 : state) : Prop :=
  invalid_path (default [] subdir) = false
  /\ resolve_filename G url filename st = (Ok f, st)
  /\ invalid_filename f = false
  /\ exists dp, g_download_path G = Some dp
       /\ create_final_path dp (default [] subdir) f overwrite st = (Ok p, st1).

(** A response whose stream is cut by a protocol error: [iter_content]
    raises [ChunkedEncodingError], which is neither a [ConnectionError]
    nor a [ValueError]. *)
Definition cut_off : response := Response 200 None [py "hel"] (Some RequestError).
Definition server_cut_off (_ : str) : reply := Responds cut_off.

End Further.

Import Further.

(** * Properties *)

(** ** Paths *)

Module PathFacts.

Lemma eqc_true a b : eqc a b = true <-> a = b.
Proof. unfold eqc. apply Ascii.eqb_eq. Qed.

Lemma eqc_false a b : eqc a b = false <-> a <> b.
Proof. unfold eqc. apply Ascii.eqb_neq. Qed.

Lemma split_nonnil p : split p <> [].
Proof.
  destruct p as [|c p]; simpl; [discriminate|].
  destruct (eqc c sep); [discriminate|].
  destruct (split p); discriminate.
Qed.

Lemma split_app_sep a b : split (a ++ sep :: b) = split a ++ split b.
Proof.
  induction a as [|c a IH]; simpl.
  - reflexivity.
  - destruct (eqc c sep); [now rewrite IH|].
    rewrite IH. pose proof (split_nonnil a) as Hn.
    destruct (split a); [contradiction|reflexivity].
Qed.

Lemma split_nosep t : sep ∉ t -> split t = [t].
Proof.
  induction t as [|c t IH]; intros H; simpl; [reflexivity|].
  apply not_elem_of_cons in H as [Hc Ht].
  destruct (eqc c sep) eqn:E; [apply eqc_true in E; congruence|].
  now rewrite (IH Ht).
Qed.


Lemma rsplit_spec p :
  (rsplit p).1 ++ (rsplit p).2 = p /\ (sep ∉ (rsplit p).2) /\ dirlike (rsplit p).1.
Proof.
  induction p as [|c p (IH1 & IH2 & IH3)]; simpl.
  - repeat split; [apply not_elem_of_nil | now left].
  - destruct (rsplit p) as [h t]; simpl in *.
    destruct h as [|x h]; simpl in *.
    + destruct (eqc c sep) eqn:E; simpl.
      * apply eqc_true in E. subst c. repeat split; [congruence|assumption|].
        right. now exists [].
      * apply eqc_false in E. repeat split; [congruence| |now left].
        apply not_elem_of_cons. split; [congruence|assumption].
    + repeat split; [congruence|assumption|].
      right. destruct IH3 as [?|[h' Hh]]; [discriminate|].
      exists (c :: h'). simpl. now rewrite Hh.
Qed.

Lemma rsplit_nosep t : sep ∉ t -> rsplit t = ([], t).
Proof.
  induction t as [|c t IH]; intros H; simpl; [reflexivity|].
  apply not_elem_of_cons in H as [Hc Ht]. rewrite (IH Ht). simpl.
  destruct (eqc c sep) eqn:E; [apply eqc_true in E; congruence|reflexivity].
Qed.

Lemma rsplit_app h t : dirlike h -> sep ∉ t -> rsplit (h ++ t) = (h, t).
Proof.
  intros [->|[h' ->]] Ht; [now apply rsplit_nosep|].
  induction h' as [|c h' IH]; simpl.
  - now rewrite (rsplit_nosep t Ht).
  - rewrite IH. simpl. destruct (h' ++ [sep]) eqn:E; [|reflexivity].
    now destruct h'.
Qed.

Lemma isabs_app h t : sep ∉ t -> isabs (h ++ t) = isabs h.
Proof.
  intros Ht. destruct h as [|c h]; simpl; [|reflexivity].
  destruct t as [|c t]; simpl; [reflexivity|].
  apply not_elem_of_cons in Ht as [Hc _]. apply eqc_false. congruence.
Qed.

Lemma components_nil : components [] = [].
Proof. reflexivity. Qed.

Lemma components_snoc_sep h : components (h ++ [sep]) = components h.
Proof.
  unfold components. rewrite split_app_sep. simpl. rewrite filter_app.
  rewrite filter_cons_False by (intros []; congruence).
  rewrite filter_nil. apply app_nil_r.
Qed.

Lemma components_app h t :
  dirlike h -> sep ∉ t ->
  components (h ++ t) = components h ++ filter (fun c => c <> [] /\ c <> [extsep]) [t].
Proof.
  intros [->|[h' ->]] Ht.
  - simpl. unfold components. now rewrite split_nosep.
  - rewrite components_snoc_sep. rewrite <- app_assoc. simpl.
    unfold components. rewrite split_app_sep, filter_app.
    now rewrite (split_nosep t Ht).
Qed.

Lemma components_app_sep a b : components (a ++ sep :: b) = components a ++ components b.
Proof. unfold components. now rewrite split_app_sep, filter_app. Qed.


Lemma endswith_sep_true a : endswith_sep a = true -> exists a', a = a' ++ [sep].
Proof.
  unfold endswith_sep. destruct (rev a) as [|c l] eqn:E; [discriminate|].
  intros H. apply eqc_true in H. subst c. exists (rev l).
  rewrite <- (rev_involutive a), E. reflexivity.
Qed.

Lemma key_of_snoc_sep a : a <> [] -> key_of (a ++ [sep]) = key_of a.
Proof.
  intros Ha. unfold key_of. rewrite components_snoc_sep.
  destruct a; [contradiction|reflexivity].
Qed.

Lemma join_decomp a b :
  isabs b = false ->
  exists h, join a b = h ++ b /\ dirlike h /\ key_of h = key_of a.
Proof.
  intros Hb. unfold join. rewrite Hb.
  destruct a as [|c a]; simpl.
  - exists []. repeat split. now left.
  - destruct (endswith_sep (c :: a)) eqn:E.
    + exists (c :: a). repeat split. right. now apply endswith_sep_true.
    + exists ((c :: a) ++ [sep]). split; [now rewrite <- app_assoc|].
      split; [right; now eexists|]. now apply key_of_snoc_sep.
Qed.

Lemma nosep_not_abs t : sep ∉ t -> isabs t = false.
Proof.
  destruct t as [|c t]; [reflexivity|]. intros H.
  apply not_elem_of_cons in H as [Hc _]. apply eqc_false. congruence.
Qed.

Lemma key_of_app h t :
  dirlike h -> sep ∉ t ->
  key_of (h ++ t) = ((key_of h).1, (key_of h).2 ++ filter (fun c => c <> [] /\ c <> [extsep]) [t]).
Proof.
  intros Hh Ht. unfold key_of. simpl.
  now rewrite isabs_app, components_app.
Qed.

Lemma parent_of_app h t : dirlike h -> sep ∉ t -> parent_of (h ++ t) = key_of h.
Proof. intros Hh Ht. unfold parent_of, dirpart. now rewrite rsplit_app. Qed.

Lemma splitext_name_app n : (splitext_name n).1 ++ (splitext_name n).2 = n.
Proof.
  unfold splitext_name. destruct (rfind_dot n) as [i|]; simpl; [|apply app_nil_r].
  destruct (forallb _ _); simpl; [apply app_nil_r|apply firstn_skipn].
Qed.

Lemma splitext_app h t :
  dirlike h -> sep ∉ t ->
  exists r e, splitext (h ++ t) = (h ++ r, e) /\ r ++ e = t.
Proof.
  intros Hh Ht. unfold splitext, basename, dirpart. rewrite rsplit_app by assumption.
  simpl. pose proof (splitext_name_app t) as H.
  destruct (splitext_name t) as [r e]. now exists r, e.
Qed.

Lemma of_nat_inj n m : of_nat n = of_nat m -> n = m.
Proof.
  unfold of_nat. intros H.
  apply (f_equal string_of_list_ascii) in H.
  rewrite !string_of_list_ascii_of_string in H.
  apply (f_equal NilEmpty.uint_of_string) in H.
  rewrite !NilEmpty.usu in H. injection H as H.
  now apply DecimalNat.Unsigned.to_uint_inj.
Qed.

Lemma digits_nosep d : sep ∉ list_ascii_of_string (NilEmpty.string_of_uint d).
Proof.
  induction d; simpl; [apply not_elem_of_nil|..];
    (apply not_elem_of_cons; split; [discriminate|assumption]).
Qed.

Lemma of_nat_nosep n : sep ∉ of_nat n.
Proof. apply digits_nosep. Qed.

Lemma candidate_piece h r e k : candidate (h ++ r) e k = h ++ piece r e k.
Proof. unfold candidate, piece. now rewrite <- app_assoc. Qed.

Lemma piece_nosep r e k : sep ∉ r ++ e -> sep ∉ piece r e k.
Proof.
  intros H. apply not_elem_of_app in H as [Hr He]. unfold piece.
  rewrite !not_elem_of_app. repeat split; try assumption.
  - apply not_elem_of_cons. split; [discriminate|apply not_elem_of_nil].
  - apply of_nat_nosep.
  - apply not_elem_of_cons. split; [discriminate|apply not_elem_of_nil].
Qed.

Lemma piece_underscore r e k : "_"%char ∈ piece r e k.
Proof. unfold piece. rewrite !elem_of_app. right. left. apply elem_of_cons. now left. Qed.

Lemma piece_proper r e k : piece r e k <> [] /\ piece r e k <> [extsep] /\ piece r e k <> dotdot.
Proof.
  pose proof (piece_underscore r e k) as H.
  repeat split; intros E; rewrite E in H; clear E.
  - now apply elem_of_nil in H.
  - apply list_elem_of_singleton in H. discriminate.
  - unfold dotdot in H. apply elem_of_cons in H as [H|H]; [discriminate|].
    apply list_elem_of_singleton in H. discriminate.
Qed.

Lemma piece_inj r e k k' : piece r e k = piece r e k' -> k = k'.
Proof.
  unfold piece. intros H. apply app_inv_head in H. simpl in H.
  injection H as H. apply of_nat_inj.
  assert (L : length (of_nat k) = length (of_nat k')).
  { apply (f_equal (@length _)) in H. rewrite !length_app in H. simpl in H. lia. }
  apply (f_equal (firstn (length (of_nat k)))) in H.
  rewrite firstn_app, Nat.sub_diag, firstn_all in H. simpl in H.
  rewrite L, firstn_app, Nat.sub_diag, firstn_all in H. simpl in H.
  now rewrite !app_nil_r in H.
Qed.

Lemma key_of_candidate h r e k :
  dirlike h -> sep ∉ r ++ e ->
  key_of (candidate (h ++ r) e k) = ((key_of h).1, (key_of h).2 ++ [piece r e k]).
Proof.
  intros Hh Ht. rewrite candidate_piece, key_of_app by auto using piece_nosep.
  destruct (piece_proper r e k) as (H1 & H2 & _).
  now rewrite filter_cons_True, filter_nil.
Qed.

Lemma key_of_candidate_inj h r e k k' :
  dirlike h -> sep ∉ r ++ e ->
  key_of (candidate (h ++ r) e k) = key_of (candidate (h ++ r) e k') -> k = k'.
Proof.
  intros Hh Ht. rewrite !key_of_candidate by assumption.
  intros H. injection H as H. apply app_inv_head in H. injection H as H.
  now apply piece_inj in H.
Qed.

End PathFacts.

Import PathFacts.

(** ** The renaming loop *)

Module LoopFacts.

Lemma components_dir_app h b :
  dirlike h -> components (h ++ b) = components h ++ components b.
Proof.
  intros [->|[h' ->]]; [reflexivity|].
  rewrite components_snoc_sep, <- app_assoc. apply components_app_sep.
Qed.

Lemma key_of_join a b :
  isabs b = false -> key_of (join a b) = ((key_of a).1, (key_of a).2 ++ components b).
Proof.
  intros Hb. destruct (join_decomp a b Hb) as (h & -> & Hh & Hk).
  rewrite <- Hk. unfold key_of. simpl. rewrite components_dir_app by assumption.
  f_equal. destruct h as [|c h]; [|reflexivity]. simpl. exact Hb.
Qed.

Lemma path_decomp p :
  exists h r e, splitext p = (h ++ r, e) /\ dirlike h /\ (sep ∉ r ++ e)
    /\ p = h ++ r ++ e /\ parent_of p = key_of h.
Proof.
  destruct (rsplit_spec p) as (H1 & H2 & H3).
  destruct (splitext_app _ _ H3 H2) as (r & e & Hs & Hre).
  exists (rsplit p).1, r, e. rewrite H1 in Hs. rewrite Hre.
  repeat split; auto.
Qed.

Lemma unique_loop_some f path ext fuel t p q :
  unique_loop f path ext fuel t p = Some q ->
  isfile f q = false /\ (q = p \/ exists k, t < k /\ q = candidate path ext k).
Proof.
  revert t p. induction fuel as [|fuel IH]; intros t p; simpl.
  - destruct (isfile f p) eqn:E; [discriminate|]. intros [= <-]. auto.
  - destruct (isfile f p) eqn:E; [|intros [= <-]; auto].
    intros H. apply IH in H as (H1 & [->|(k & Hk & ->)]); split; auto; right.
    + exists (S t). split; [lia|reflexivity].
    + exists k. split; [lia|reflexivity].
Qed.

Lemma unique_loop_none f path ext fuel t p :
  unique_loop f path ext fuel t p = None ->
  isfile f p = true /\
  forall k, t < k <= t + fuel -> isfile f (candidate path ext k) = true.
Proof.
  revert t p. induction fuel as [|fuel IH]; intros t p; simpl.
  - destruct (isfile f p); [|discriminate]. intros _. split; [reflexivity|]. lia.
  - destruct (isfile f p); [|discriminate]. intros H.
    apply IH in H as (H1 & H2). split; [reflexivity|]. intros k Hk.
    destruct (decide (k = S t)) as [->|Hn]; [exact H1|]. apply H2. lia.
Qed.

Lemma unique_loop_total f h r e t p :
  dirlike h -> sep ∉ r ++ e ->
  unique_loop f (h ++ r) e (S (size (files f))) t p <> None.
Proof.
  intros Hh Ht Hnone. apply unique_loop_none in Hnone as (_ & Hall).
  set (n := size (files f)) in *.
  set (g := fun k => key_of (candidate (h ++ r) e k)).
  assert (Hinj : Inj (=) (=) g).
  { intros k k' Hk. now apply (key_of_candidate_inj h r e). }
  set (l := g <$> seq (S t) (S n)).
  assert (Hnd : NoDup l) by (apply (NoDup_fmap_2 g), NoDup_seq).
  assert (Hsub : (list_to_set l : gset key) ⊆ dom (files f)).
  { intros k Hk. apply elem_of_list_to_set, list_elem_of_fmap in Hk as (i & -> & Hi).
    apply elem_of_seq in Hi. apply elem_of_dom.
    specialize (Hall i ltac:(lia)). unfold isfile in Hall.
    now apply bool_decide_eq_true in Hall. }
  apply subseteq_size in Hsub.
  rewrite size_list_to_set, size_dom in Hsub by assumption.
  unfold l in Hsub. rewrite length_fmap, length_seq in Hsub. lia.
Qed.

End LoopFacts.

Import LoopFacts.

(** ** The path allocator, and which files a computation may add *)

Module AllocFacts.

Lemma ensure_unique_filename_spec p st :
  exists q, ensure_unique_filename p st = (Ok q, st)
    /\ isfile (fs st) q = false
    /\ parent_of q = parent_of p
    /\ (q = p \/ exists x, x <> dotdot
                  /\ key_of q = ((parent_of p).1, (parent_of p).2 ++ [x])).
Proof.
  destruct (path_decomp p) as (h & r & e & Hs & Hh & Ht & Hp & Hpar).
  unfold ensure_unique_filename, bind, get_fs. rewrite Hs.
  destruct (unique_loop _ _ _ _ _ _) as [q|] eqn:E.
  - exists q. split; [reflexivity|].
    apply unique_loop_some in E as (Hq & [->|(k & _ & ->)]); split; auto.
    rewrite candidate_piece, parent_of_app, Hpar by auto using piece_nosep.
    split; [reflexivity|]. right. exists (piece r e k).
    split; [apply piece_proper|].
    rewrite <- candidate_piece. now apply key_of_candidate.
  - now apply unique_loop_total in E.
Qed.

Lemma parent_of_join J f : sep ∉ f -> parent_of (join J f) = key_of J.
Proof.
  intros Hf. destruct (join_decomp J f (nosep_not_abs f Hf)) as (h & -> & Hh & Hk).
  now rewrite parent_of_app.
Qed.

Lemma ancestors_self k : k.2 <> [] -> k ∈ ancestors k.
Proof.
  intros Hk. unfold ancestors. apply list_elem_of_fmap.
  exists (length k.2). rewrite firstn_all. split; [now destruct k|].
  apply elem_of_seq. destruct k.2; [contradiction|simpl; lia].
Qed.

Lemma makedirs_cases p st :
  ((exists a, a ∈ ancestors (key_of p) /\ is_Some (files (fs st) !! a))
   /\ makedirs p st = (Raise OSError, st))
  \/ makedirs p st =
       (Ok tt, State (Fsys (files (fs st))
                       (dirs (fs st) ∪ list_to_set (ancestors (key_of p))))
                 (bus st) (log st) (net st)).
Proof.
  unfold makedirs, put_fs. destruct (existsb _ _) eqn:Eex; [left|now right].
  split; [|reflexivity].
  apply existsb_exists in Eex as (a & Ha & Hfile).
  exists a. split; [now apply list_elem_of_In|].
  now apply bool_decide_eq_true in Hfile.
Qed.

Lemma create_final_path_cases dp sd f ow st :
  sep ∉ f ->
  let J := target_dir dp sd in
  (truthy sd = true
   /\ (exists a, a ∈ ancestors (key_of J) /\ is_Some (files (fs st) !! a))
   /\ create_final_path dp sd f ow st = (Raise OSError, st))
  \/ (exists q st', create_final_path dp sd f ow st = (Ok q, st')
      /\ files (fs st') = files (fs st)
      /\ dirs (fs st') =
           (if truthy sd then dirs (fs st) ∪ list_to_set (ancestors (key_of J))
            else dirs (fs st))
      /\ bus st' = bus st /\ log st' = log st /\ net st' = net st
      /\ (ow = true -> q = join J f)
      /\ (ow = false -> isfile (fs st') q = false)
      /\ parent_of q = key_of J
      /\ (q = join J f \/ exists x, x <> dotdot
                  /\ key_of q = ((key_of J).1, (key_of J).2 ++ [x]))).
Proof.
  intros Hf J. unfold create_final_path, J, target_dir.
  assert (Hfin : forall st1,
    files (fs st1) = files (fs st) ->
    dirs (fs st1) = (if truthy sd then dirs (fs st) ∪ list_to_set (ancestors (key_of (join dp sd))) else dirs (fs st)) ->
    bus st1 = bus st -> log st1 = log st -> net st1 = net st ->
    let p0 := join (if truthy sd then join dp sd else dp) f in
    exists q st', (if negb ow then ensure_unique_filename p0 else ret p0) st1 = (Ok q, st')
      /\ files (fs st') = files (fs st)
      /\ dirs (fs st') = (if truthy sd then dirs (fs st) ∪ list_to_set (ancestors (key_of (join dp sd))) else dirs (fs st))
      /\ bus st' = bus st /\ log st' = log st /\ net st' = net st
      /\ (ow = true -> q = p0)
      /\ (ow = false -> isfile (fs st') q = false)
      /\ parent_of q = key_of (if truthy sd then join dp sd else dp)
      /\ (q = p0 \/ exists x, x <> dotdot
            /\ key_of q = ((key_of (if truthy sd then join dp sd else dp)).1,
                           (key_of (if truthy sd then join dp sd else dp)).2 ++ [x]))).
  { intros st1 H1 H2 H3 H4 H5 p0.
    pose proof (parent_of_join (if truthy sd then join dp sd else dp) f Hf) as Hpar.
    fold p0 in Hpar. destruct ow; simpl.
    - exists p0, st1. unfold ret. repeat split; auto. discriminate.
    - destruct (ensure_unique_filename_spec p0 st1) as (q & Hq & Hfree & Hpq & Hkey).
      exists q, st1. rewrite Hpar in *. repeat split; auto. discriminate. }
  destruct (truthy sd) eqn:Esd.
  - unfold bind.
    destruct (makedirs_cases (join dp sd) st) as [[Hex ->]| ->].
    + left. auto.
    + right. unfold ret at 1.
      apply Hfin; reflexivity.
  - right. unfold bind at 1. unfold ret at 1. apply Hfin; reflexivity.
Qed.


Lemma grows_refl D st : grows D st st.
Proof. intros k Hk. now left. Qed.

Lemma grows_trans D st1 st2 st3 : grows D st1 st2 -> grows D st2 st3 -> grows D st1 st3.
Proof.
  intros H12 H23 k Hk. destruct (H23 k Hk) as [H|H]; [|now right]. now apply H12.
Qed.

Lemma grows_same_files D st st' : files (fs st') = files (fs st) -> grows D st st'.
Proof. intros E k Hk. left. now rewrite <- E. Qed.

Lemma spec_weaken {A} D (Q Q' : A -> Prop) m :
  spec D Q m -> (forall a, Q a -> Q' a) -> spec D Q' m.
Proof. intros Hm HQ st r st' E. destruct (Hm _ _ _ E) as [H1 H2]. split; eauto. Qed.

Lemma spec_ret {A} D (Q : A -> Prop) a : Q a -> spec D Q (ret a).
Proof.
  intros Ha st r st' [= <- <-]. split; [apply grows_refl|]. now intros ? [= <-].
Qed.

Lemma spec_raise {A} D (Q : A -> Prop) e : spec D Q (raise e).
Proof. intros st r st' [= <- <-]. split; [apply grows_refl|]. discriminate. Qed.

Lemma spec_bind {A B} D (Q : A -> Prop) (R : B -> Prop) m k :
  spec D Q m -> (forall a, Q a -> spec D R (k a)) -> spec D R (bind m k).
Proof.
  intros Hm Hk st r st' E. unfold bind in E.
  destruct (m st) as [[a|e|] st1] eqn:Em; destruct (Hm _ _ _ Em) as [G1 Q1].
  - destruct (Hk a (Q1 a eq_refl) _ _ _ E) as [G2 Q2].
    split; [eapply grows_trans; eauto|assumption].
  - injection E as <- <-. split; [assumption|discriminate].
  - injection E as <- <-. split; [assumption|discriminate].
Qed.

Lemma spec_try {A B} D (Q : A -> Prop) (R : B -> Prop) m h k :
  spec D Q m -> (forall e, spec D R (h e)) -> (forall a, Q a -> spec D R (k a)) ->
  spec D R (try_ m h k).
Proof.
  intros Hm Hh Hk st r st' E. unfold try_ in E.
  destruct (m st) as [[a|e|] st1] eqn:Em; destruct (Hm _ _ _ Em) as [G1 Q1].
  - destruct (Hk a (Q1 a eq_refl) _ _ _ E) as [G2 Q2].
    split; [eapply grows_trans; eauto|assumption].
  - destruct (Hh e _ _ _ E) as [G2 Q2].
    split; [eapply grows_trans; eauto|assumption].
  - injection E as <- <-. split; [assumption|discriminate].
Qed.

(** A computation that leaves the files as they are. *)
Lemma spec_pure {A} D (Q : A -> Prop) (m : M A) :
  (forall st r st', m st = (r, st') ->
     files (fs st') = files (fs st) /\ (forall a, r = Ok a -> Q a)) ->
  spec D Q m.
Proof.
  intros H st r st' E. destruct (H _ _ _ E) as [H1 H2].
  split; [now apply grows_same_files|assumption].
Qed.

Lemma spec_logger D l : spec D (fun _ => True) (logger l).
Proof. apply spec_pure. intros st r st' [= <- <-]. auto. Qed.

Lemma spec_bus_fire D ty url fn : spec D (fun _ => True) (bus_fire ty url fn).
Proof. apply spec_pure. intros st r st' [= <- <-]. auto. Qed.

Lemma spec_get_fs D : spec D (fun _ => True) get_fs.
Proof. apply spec_pure. intros st r st' [= <- <-]. auto. Qed.

Lemma spec_open_wb (D : key -> Prop) p : D (key_of p) -> spec D (fun _ => True) (open_wb p).
Proof.
  intros HD st r st' E. unfold open_wb, put_fs in E. split; [|auto].
  destruct (_ || _); injection E as <- <-; [apply grows_refl|].
  intros k Hk. simpl in Hk. destruct (decide (k = key_of p)) as [->|Hn]; [now right|].
  left. now rewrite lookup_insert_ne in Hk.
Qed.

Lemma spec_write (D : key -> Prop) p c : D (key_of p) -> spec D (fun _ => True) (write p c).
Proof.
  intros HD st r st' [= <- <-]. split; [|auto].
  intros k Hk. simpl in Hk. destruct (decide (k = key_of p)) as [->|Hn]; [now right|].
  left. now rewrite lookup_insert_ne in Hk.
Qed.

Lemma spec_os_remove D p : spec D (fun _ => True) (os_remove p).
Proof.
  intros st r st' E. unfold os_remove, put_fs in E. split; [|auto].
  destruct (isfile _ _); injection E as <- <-; [|apply grows_refl].
  intros k Hk. simpl in Hk. left.
  destruct (decide (k = key_of p)) as [->|Hn].
  - rewrite lookup_delete_eq in Hk. now destruct Hk.
  - now rewrite lookup_delete_ne in Hk.
Qed.

End AllocFacts.

Import AllocFacts.

(** ** The functions of the module *)

Module ProgramFacts.

Lemma under_intro (d k : key) rest :
  k = (d.1, d.2 ++ rest) -> dotdot ∉ rest -> under d k = true.
Proof.
  intros -> Hrest. unfold under. simpl.
  rewrite take_app_length, drop_app_length, !bool_decide_eq_true_2 by reflexivity.
  simpl. apply forallb_forall. intros x Hx. apply negb_true_iff, bool_decide_eq_false.
  intros ->. apply Hrest. now apply list_elem_of_In.
Qed.

Lemma components_nosep f : sep ∉ f -> f <> dotdot -> dotdot ∉ components f.
Proof.
  intros Hf Hn. unfold components. rewrite split_nosep by assumption.
  intros H. apply list_elem_of_filter in H as [_ H].
  apply list_elem_of_singleton in H. congruence.
Qed.

Lemma key_of_target_dir dp sd :
  isabs sd = false ->
  key_of (target_dir dp sd) = ((key_of dp).1, (key_of dp).2 ++ components sd).
Proof.
  intros Hsd. unfold target_dir. destruct sd as [|c sd]; simpl truthy; cbv iota.
  - rewrite components_nil, app_nil_r. now destruct (key_of dp).
  - now apply key_of_join.
Qed.

Lemma create_final_path_under dp sd f ow st q st' :
  isabs sd = false -> dotdot ∉ components sd -> sep ∉ f -> f <> dotdot ->
  create_final_path dp sd f ow st = (Ok q, st') ->
  files (fs st') = files (fs st) /\ under (key_of dp) (key_of q) = true.
Proof.
  intros Hsd Hdd Hf Hn E.
  destruct (create_final_path_cases dp sd f ow st Hf) as [(_ & _ & E')|H].
  { rewrite E' in E. discriminate. }
  destruct H as (q' & st1 & E' & Hfiles & _ & _ & _ & _ & _ & _ & _ & Hq).
  rewrite E' in E. injection E as -> ->. split; [assumption|].
  pose proof (key_of_target_dir dp sd Hsd) as HJ.
  destruct Hq as [->|(x & Hx & Hk)].
  - rewrite key_of_join, HJ by now apply nosep_not_abs. simpl.
    rewrite <- app_assoc. eapply under_intro; [reflexivity|].
    apply not_elem_of_app. split; [assumption|now apply components_nosep].
  - rewrite Hk, HJ. simpl. rewrite <- app_assoc.
    eapply under_intro; [reflexivity|].
    apply not_elem_of_app. split; [assumption|].
    intros H. apply list_elem_of_singleton in H. congruence.
Qed.

Section WithWorld.

Variable invalid_path : str -> bool.
Variable invalid_filename : str -> bool.
Variable server : str -> reply.
Variable G : genv.
Variable D : key -> Prop.

Lemma spec_global_hass : spec D (fun _ => True) (global_hass G).
Proof.
  apply spec_pure. intros st r st' E. unfold global_hass in E.
  destruct (g_hass G); injection E as <- <-; auto.
Qed.

Lemma spec_global_req : spec D (fun _ => True) (global_req G).
Proof.
  apply spec_pure. intros st r st' E. unfold global_req in E.
  destruct (g_req G); injection E as <- <-; auto.
Qed.

Lemma spec_global_download_path :
  spec D (fun d => g_download_path G = Some d) (global_download_path G).
Proof.
  apply spec_pure. intros st r st' E. unfold global_download_path in E.
  destruct (g_download_path G) eqn:Ed; injection E as <- <-; split; auto.
  - now intros a [= <-].
  - discriminate.
Qed.

Lemma spec_requests_get url : spec D (fun _ => True) (requests_get server url).
Proof.
  apply spec_pure. intros st r st' E. unfold requests_get in E.
  destruct (server url); injection E as <- <-; auto.
Qed.

Lemma spec_handle_download_failure url fn p e :
  spec D (fun _ => True) (handle_download_failure G url fn p e).
Proof.
  unfold handle_download_failure.
  apply spec_bind with (Q := fun _ => True).
  { destruct e; [apply spec_logger|now apply spec_ret]. }
  intros _ _. apply spec_bind with (Q := fun _ => True); [apply spec_get_fs|].
  intros f _. apply spec_bind with (Q := fun _ => True).
  { destruct (_ && _); [apply spec_os_remove|now apply spec_ret]. }
  intros _ _. apply spec_bind with (Q := fun _ => True); [apply spec_global_hass|].
  intros _ _. apply spec_bus_fire.
Qed.

Lemma spec_write_chunks p cs : D (key_of p) -> spec D (fun _ => True) (write_chunks p cs).
Proof.
  intros HD. induction cs as [|c cs IH]; simpl; [now apply spec_ret|].
  apply spec_bind with (Q := fun _ => True); [now apply spec_write|auto].
Qed.

Lemma spec_download_and_save_file url p :
  D (key_of p) -> spec D (fun _ => True) (download_and_save_file server G url p).
Proof.
  intros HD. unfold download_and_save_file.
  apply spec_bind with (Q := fun _ => True); [apply spec_requests_get|].
  intros req _. destruct (_ =? _).
  - apply spec_bind with (Q := fun _ => True); [now apply spec_open_wb|].
    intros _ _. unfold stream_to.
    apply spec_bind with (Q := fun _ => True); [now apply spec_write_chunks|].
    intros _ _. destruct (stream_error req); [apply spec_raise|now apply spec_ret].
  - apply spec_bind with (Q := fun _ => True); [apply spec_logger|].
    intros _ _. apply spec_handle_download_failure.
Qed.

Lemma spec_except url fn fp e : spec D (fun _ => True) (except G url fn fp e).
Proof.
  unfold except. destruct (caught e); [|apply spec_raise].
  destruct fp; [apply spec_handle_download_failure|apply spec_raise].
Qed.

Lemma spec_resolve_filename url fn : spec D (fun _ => True) (resolve_filename G url fn).
Proof.
  unfold resolve_filename.
  apply spec_bind with (Q := fun _ => True).
  - destruct (negb _); [|now apply spec_ret].
    apply spec_bind with (Q := fun _ => True); [apply spec_global_req|].
    intros req _. destruct (content_disposition req); [|now apply spec_ret].
    destruct (findall_first _); now apply spec_ret.
  - intros f _. destruct (negb _); now apply spec_ret.
Qed.

Lemma spec_raise_if_invalid_path s :
  spec D (fun _ => invalid_path s = false) (raise_if_invalid_path invalid_path s).
Proof.
  unfold raise_if_invalid_path. destruct (invalid_path s); [apply spec_raise|now apply spec_ret].
Qed.

Lemma spec_raise_if_invalid_filename s :
  spec D (fun _ => invalid_filename s = false) (raise_if_invalid_filename invalid_filename s).
Proof.
  unfold raise_if_invalid_filename. destruct (invalid_filename s); [apply spec_raise|now apply spec_ret].
Qed.

End WithWorld.

Lemma spec_do_download vp vf server G url subdir filename overwrite :
  path_validator_ok vp -> filename_validator_ok vf ->
  spec (in_download_dir G) (fun _ => True)
    (do_download vp vf server G url subdir filename overwrite).
Proof.
  intros Hp Hf. unfold do_download. set (D := in_download_dir G).
  eapply spec_try; [apply spec_raise_if_invalid_path|intros; apply spec_except|].
  intros ? Hsd. destruct (Hp _ Hsd) as [Hrel Hdd].
  eapply spec_try; [apply spec_resolve_filename|intros; apply spec_except|].
  intros fname _.
  eapply spec_try; [apply spec_raise_if_invalid_filename|intros; apply spec_except|].
  intros ? Hfn. destruct (Hf _ Hfn) as [Hsep Hne].
  eapply spec_try with (Q := fun p => D (key_of p)); [|intros; apply spec_except|].
  { eapply spec_bind; [apply spec_global_download_path|].
    intros dp Hdp st r st' E. destruct r as [q| |].
    - destruct (create_final_path_under _ _ _ _ _ _ _ Hrel Hdd Hsep Hne E) as [H1 H2].
      split; [now apply grows_same_files|]. intros q' [= <-]. now exists dp.
    - split; [|discriminate]. apply grows_same_files.
      destruct (create_final_path_cases dp (default [] subdir) fname overwrite st Hsep)
        as [(_ & _ & E')|(q & st1 & E' & _)]; rewrite E' in E; [|discriminate].
      now injection E as _ <-.
    - destruct (create_final_path_cases dp (default [] subdir) fname overwrite st Hsep)
        as [(_ & _ & E')|(q & st1 & E' & _)]; rewrite E' in E; discriminate. }
  intros p HD.
  eapply spec_try with (Q := fun _ => True); [|intros; apply spec_except|intros; now apply spec_ret].
  apply spec_bind with (Q := fun _ => True); [apply spec_logger|]. intros _ _.
  apply spec_bind with (Q := fun _ => True); [now apply spec_download_and_save_file|]. intros _ _.
  apply spec_bind with (Q := fun _ => True); [apply spec_logger|]. intros _ _.
  apply spec_bind with (Q := fun _ => True); [apply spec_global_hass|]. intros _ _.
  apply spec_bus_fire.
Qed.

End ProgramFacts.

Import ProgramFacts.

(** ** The claims *)

Module ResolveFacts.

Lemma resolve_filename_explicit G url fn st :
  truthy_opt fn = true -> resolve_filename G url fn st = (Ok (default [] fn), st).
Proof.
  intros H. unfold resolve_filename, bind. rewrite H. simpl. unfold ret at 1.
  now rewrite H.
Qed.

Lemma resolve_filename_unbound G url fn st :
  truthy_opt fn = false -> g_req G = None ->
  resolve_filename G url fn st = (Raise (NameError "req"), st).
Proof.
  intros H Hg. unfold resolve_filename, bind, global_req. now rewrite H, Hg.
Qed.

Lemma resolve_filename_bound G r url fn st :
  g_req G = Some r ->
  resolve_filename G url fn st = (Ok (resolved_name r url fn), st).
Proof.
  intros Hg. unfold resolved_name. destruct (truthy_opt fn) eqn:Et.
  { now apply resolve_filename_explicit. }
  unfold resolve_filename, bind, global_req, header_name, url_name.
  rewrite Et, Hg. unfold ret. change (negb false) with true. cbv iota beta.
  destruct (content_disposition r) as [h|]; [|cbv iota beta; now rewrite Et].
  destruct (findall_first h) as [m|]; cbv iota beta; [|now rewrite Et].
  unfold truthy_opt. destruct (truthy (strip quote_or_blank m)); reflexivity.
Qed.

End ResolveFacts.

Import ResolveFacts.

Module ValidatorFacts.

Lemma spec_path_validator_ok : path_validator_ok SpecValidator.invalid_path.
Proof.
  intros s H. unfold SpecValidator.invalid_path in H.
  apply orb_false_iff in H as [H _]. apply orb_false_iff in H as [Hseg Habs].
  split; [exact Habs|]. intros Hin. unfold components in Hin.
  apply list_elem_of_filter in Hin as [_ Hin].
  assert (E : SpecValidator.has_parent_segment s = true); [|congruence].
  apply existsb_exists. exists dotdot. split; [now apply list_elem_of_In|].
  now apply bool_decide_eq_true.
Qed.

Lemma spec_filename_validator_ok : filename_validator_ok SpecValidator.invalid_filename.
Proof.
  intros s H. unfold SpecValidator.invalid_filename in H.
  apply orb_false_iff in H as [Hp Hsep]. split.
  - intros Hin. assert (E : existsb (eqc sep) s = true); [|congruence].
    apply existsb_exists. exists sep. split; [now apply list_elem_of_In|reflexivity].
  - intros ->. discriminate Hp.
Qed.

End ValidatorFacts.

Import ValidatorFacts.

Lemma do_download_rejected
    (invalid_path invalid_filename : str -> bool) (server : str -> reply)
    (G : genv) (url : str) (subdir filename : option str) (overwrite : bool)
    (st : state) :
  invalid_path (default [] subdir) = true
  \/ (exists f, resolve_filename G url filename st = (Ok f, st)
                /\ invalid_filename f = true) ->
  do_download invalid_path invalid_filename server G
    url subdir filename overwrite st
  = (Raise (UnboundLocalError "final_path"), st).
Proof.
  intros H. unfold do_download, try_, raise_if_invalid_path.
  destruct (invalid_path (default [] subdir)) eqn:Ep; [reflexivity|].
  destruct H as [H|(f & Hr & Hf)]; [discriminate|].
  unfold ret at 1. rewrite Hr. unfold raise_if_invalid_filename. rewrite Hf.
  reflexivity.
Qed.

(** C10. With the namespace as the module leaves it, every call of
    [do_download] ends in an uncaught [NameError] (an [UnboundLocalError]
    when the [except] clause reads [final_path]), and the state is the one
    it started in: no event is fired, nothing is requested or written.  A
    request without a filename fails on [req]. *)
Theorem do_download_unbound_names
    (invalid_path invalid_filename : str -> bool) (server : str -> reply)
    (url : str) (subdir filename : option str) (overwrite : bool) (st : state) :
  exists e,
    do_download invalid_path invalid_filename server module_globals
      url subdir filename overwrite st = (Raise e, st)
    /\ is_NameError e = true
    /\ e = (if invalid_path (default [] subdir) then UnboundLocalError "final_path"
            else if negb (truthy_opt filename) then NameError "req"
            else if invalid_filename (default [] filename)
                 then UnboundLocalError "final_path"
                 else NameError "download_path").
Proof.
  unfold do_download, try_, raise_if_invalid_path.
  destruct (invalid_path (default [] subdir)) eqn:Ep.
  - eexists. split; [reflexivity|]. split; reflexivity.
  - unfold ret at 1. destruct (truthy_opt filename) eqn:Et; simpl negb; cbv iota.
    + rewrite resolve_filename_explicit by assumption.
      unfold raise_if_invalid_filename.
      destruct (invalid_filename (default [] filename)) eqn:Ef.
      * eexists. split; [reflexivity|]. split; reflexivity.
      * eexists. split; [reflexivity|]. split; reflexivity.
    + rewrite resolve_filename_unbound by auto.
      eexists. split; [reflexivity|]. split; reflexivity.
Qed.

(** C2. A request whose subdirectory or filename is rejected does stop
    before any network call or change of the file system, but no
    [download_failed] event is fired: the [except] clause reads
    [final_path], which is not assigned yet, and the request ends in an
    uncaught [UnboundLocalError] with the state untouched. *)
Theorem rejected_request_fires_no_event
    (invalid_path invalid_filename : str -> bool) (server : str -> reply)
    (G : genv) (url : str) (subdir filename : option str) (overwrite : bool)
    (st : state) :
  invalid_path (default [] subdir) = true
  \/ (exists f, resolve_filename G url filename st = (Ok f, st)
                /\ invalid_filename f = true) ->
  do_download invalid_path invalid_filename server G
    url subdir filename overwrite st
  = (Raise (UnboundLocalError "final_path"), st).
Proof. apply do_download_rejected. Qed.

Lemma rejected_request_fires_no_event_witness :
  SpecValidator.invalid_path (default [] (Some (py "../x"))) = true
  /\ do_download SpecValidator.invalid_path SpecValidator.invalid_filename
       server_hello bound_globals url_test (Some (py "../x")) None false st0
     = (Raise (UnboundLocalError "final_path"), st0).
Proof.
  split; [reflexivity|].
  apply rejected_request_fires_no_event. left. reflexivity.
Defined.

(** A response other than 200 makes [download_and_save_file] report the
    failure and then return normally, when [hass] is bound. *)
Lemma download_and_save_file_non_200 server G url p r st :
  server url = Responds r -> status_code r <> 200 -> g_hass G = true ->
  exists st', download_and_save_file server G url p st = (Ok tt, st')
    /\ bus st' = bus st ++ [Event failed_event url None].
Proof.
  intros Hs Hr Hh. unfold download_and_save_file, bind at 1, requests_get.
  rewrite Hs. apply Nat.eqb_neq in Hr. rewrite Hr.
  unfold handle_download_failure, global_hass. rewrite Hh.
  unfold bind, logger, get_fs, ret, bus_fire, os_remove, put_fs. cbn -[isfile].
  destruct (truthy p && isfile (fs st) p) eqn:E.
  - apply andb_true_iff in E as [_ E]. cbn [fs bus log net]. rewrite E.
    eexists. split; reflexivity.
  - eexists. split; reflexivity.
Qed.

(** C1. On a response other than 200 the request is not treated as a
    failure only: with the names bound, [download_and_save_file] fires
    [download_failed] and returns, and [do_download] goes on to fire
    [download_completed] for the same request; with the namespace as the
    module leaves it, the failure branch stops at [hass] after the cleanup
    and fires no event at all. *)
Theorem non_200_also_fires_completed :
  (let r := do_download SpecValidator.invalid_path SpecValidator.invalid_filename
              server_404 bound_globals url_test None None false st0 in
   r.1 = Ok tt
   /\ bus r.2 = [Event failed_event url_test None;
                 Event completed_event url_test (Some (py "test.txt"))])
  /\ (let r := download_and_save_file server_404 module_globals
                 url_test (py "/d/test.txt") st0 in
      r.1 = Raise (NameError "hass") /\ bus r.2 = []).
Proof. vm_compute. repeat split; reflexivity. Qed.

(** C3. The name tried after a collision is not [name_2.ext]: the
    extension [os.path.splitext] returns keeps its dot and the format adds
    another, so that [test.txt] is followed by [test_2..txt] and
    [test_3..txt], and a name without extension by [f_2.]. *)
Theorem ensure_unique_filename_doubles_the_dot :
  (ensure_unique_filename (py "/d/test.txt") st1).1 = Ok (py "/d/test_2..txt")
  /\ (ensure_unique_filename (py "/d/test.txt") st2).1 = Ok (py "/d/test_3..txt")
  /\ (ensure_unique_filename (py "/d/f") st3).1 = Ok (py "/d/f_2.")
  /\ (ensure_unique_filename (py "/d/test.txt") st0).1 = Ok (py "/d/test.txt").
Proof. vm_compute. repeat split; reflexivity. Qed.

(** C4. With the namespace as the module leaves it, a filename that is
    absent or empty is not resolved from the header or from the URL:
    [resolve_filename] reads [req], which is not bound, and raises
    [NameError]; only an explicit filename is returned. *)
Theorem resolve_filename_needs_req (url : str) (st : state) :
  resolve_filename module_globals url None st = (Raise (NameError "req"), st)
  /\ resolve_filename module_globals url (Some []) st = (Raise (NameError "req"), st)
  /\ forall c f, resolve_filename module_globals url (Some (c :: f)) st = (Ok (c :: f), st).
Proof. repeat split. Qed.

(** C6. A value error of the validators is caught, but the cleanup does
    not run and no [download_failed] event is fired: the [except] clause
    reads [final_path] before it is assigned and the request ends in an
    uncaught [UnboundLocalError]. *)
Theorem value_error_skips_cleanup :
  let r := do_download SpecValidator.invalid_path SpecValidator.invalid_filename
             server_hello bound_globals url_test None (Some (py "..")) false st1 in
  r.1 = Raise (UnboundLocalError "final_path") /\ bus r.2 = [] /\ net r.2 = []
  /\ fs r.2 = fs st1.
Proof. vm_compute. repeat split; reflexivity. Qed.

(** With the names bound, a connection error in the middle of the stream
    is cleaned up: the partial file is removed and [download_failed] is
    fired. *)
Example connection_error_cleans_up :
  let r := do_download SpecValidator.invalid_path SpecValidator.invalid_filename
             server_broken bound_globals url_test None None false st0 in
  r.1 = Ok tt /\ files (fs r.2) = ∅
  /\ bus r.2 = [Event failed_event url_test (Some (py "test.txt"))].
Proof. vm_compute. repeat split; reflexivity. Qed.

(** C9. With the namespace as the module leaves it, a request without
    filename gets no name at all: [resolve_filename] raises [NameError] on
    [req] before it looks at the header, and the fallback to the last
    segment of the URL is never reached, whatever the URL. *)
Theorem resolve_filename_never_falls_back (url : str) (st : state) :
  (resolve_filename module_globals url None st).1 = Raise (NameError "req")
  /\ (forall f, (resolve_filename module_globals url None st).1 <> Ok f)
  /\ (resolve_filename module_globals url None st).2 = st.
Proof.
  rewrite resolve_filename_unbound by reflexivity. cbn [fst snd].
  split; [reflexivity|]. split; [discriminate|reflexivity].
Qed.

(** With [req] bound to a response without header, a URL whose last
    segment is empty resolves to the empty string. *)
Lemma resolve_filename_empty :
  resolve_filename bound_globals (py "http://x/") None st0 = (Ok [], st0).
Proof. reflexivity. Qed.

(** Where the response [req] is at hand, the resolver
    returns the first non-empty one of the explicit filename, the stripped
    filename of the header and the trimmed last segment of the URL; its
    result is non-empty exactly when one of the three is, and is the empty
    string otherwise. *)
Theorem resolve_filename_nonempty_iff (G : genv) (r : response) (url : str)
    (filename : option str) (st : state) :
  g_req G = Some r ->
  exists f, resolve_filename G url filename st = (Ok f, st)
    /\ f = resolved_name r url filename
    /\ (truthy f = true <->
        truthy_opt filename = true
        \/ (exists m, header_name r = Some m /\ truthy m = true)
        \/ truthy (url_name url) = true).
Proof.
  intros Hg. exists (resolved_name r url filename).
  split; [now apply resolve_filename_bound|]. split; [reflexivity|].
  unfold resolved_name. destruct (truthy_opt filename) eqn:Et.
  - split; [auto|]. intros _. destruct filename; [exact Et|discriminate].
  - destruct (header_name r) as [m|].
    + destruct (truthy m) eqn:Em.
      * split; [|auto]. intros _. right. left. now exists m.
      * split; [auto|]. intros [H|[(m' & [= <-] & H)|H]]; congruence.
    + split; [auto|]. intros [H|[(m' & H & _)|H]]; congruence.
Qed.

Lemma resolve_filename_nonempty_iff_witness :
  g_req header_globals = Some a_header
  /\ exists f, resolve_filename header_globals url_test None st0 = (Ok f, st0)
    /\ f = resolved_name a_header url_test None
    /\ (truthy f = true <->
        truthy_opt None = true
        \/ (exists m, header_name a_header = Some m /\ truthy m = true)
        \/ truthy (url_name url_test) = true).
Proof.
  split; [reflexivity|].
  apply (resolve_filename_nonempty_iff header_globals a_header url_test None st0).
  reflexivity.
Defined.

Example resolved_name_ex :
  resolved_name a_header url_test None = py "report.pdf"
  /\ resolved_name hello url_test None = py "test.txt"
  /\ resolved_name a_header url_test (Some (py "mine.bin")) = py "mine.bin"
  /\ resolved_name hello (py "http://x/dir/") None = py "".
Proof. repeat split; reflexivity. Qed.

(** C5. Whatever the namespace and the network, a request adds no file
    outside the download directory: every file there is after the call
    was there before or lies below [download_path], provided the
    validators reject what the spec has them reject.  A request they
    reject leaves the whole state as it was. *)
Theorem no_file_outside_download_dir
    (invalid_path invalid_filename : str -> bool) (server : str -> reply)
    (G : genv) (url : str) (subdir filename : option str) (overwrite : bool)
    (st : state) :
  path_validator_ok invalid_path -> filename_validator_ok invalid_filename ->
  let r := do_download invalid_path invalid_filename server G
             url subdir filename overwrite st in
  (forall k, is_Some (files (fs r.2) !! k) ->
             is_Some (files (fs st) !! k) \/ in_download_dir G k)
  /\ (invalid_path (default [] subdir) = true
      \/ (exists f, resolve_filename G url filename st = (Ok f, st)
                    /\ invalid_filename f = true) ->
      r.2 = st).
Proof.
  intros Hp Hf r. split.
  - pose proof (spec_do_download invalid_path invalid_filename server G
                  url subdir filename overwrite Hp Hf) as H.
    destruct (H st r.1 r.2) as [Hg _]; [apply surjective_pairing|]. exact Hg.
  - intros H. unfold r. now rewrite do_download_rejected.
Qed.

Lemma no_file_outside_download_dir_witness :
  path_validator_ok SpecValidator.invalid_path
  /\ filename_validator_ok SpecValidator.invalid_filename
  /\ let r := do_download SpecValidator.invalid_path SpecValidator.invalid_filename
                server_hello bound_globals url_test (Some (py "sub")) None false st1 in
     (forall k, is_Some (files (fs r.2) !! k) ->
                is_Some (files (fs st1) !! k) \/ in_download_dir bound_globals k)
     /\ (SpecValidator.invalid_path (default [] (Some (py "sub"))) = true
         \/ (exists f, resolve_filename bound_globals url_test None st1 = (Ok f, st1)
                       /\ SpecValidator.invalid_filename f = true) ->
         r.2 = st1).
Proof.
  split; [exact spec_path_validator_ok|]. split; [exact spec_filename_validator_ok|].
  apply (no_file_outside_download_dir SpecValidator.invalid_path
           SpecValidator.invalid_filename server_hello bound_globals url_test
           (Some (py "sub")) None false st1
           spec_path_validator_ok spec_filename_validator_ok).
Defined.

Example download_into_subdir_ex :
  let r := do_download SpecValidator.invalid_path SpecValidator.invalid_filename
             server_hello bound_globals url_test (Some (py "sub")) None false st1 in
  r.1 = Ok tt
  /\ files (fs r.2) !! (true, [py "d"; py "sub"; py "test.txt"]) = Some (py "hello")
  /\ under (key_of (py "/d")) (true, [py "d"; py "sub"; py "test.txt"]) = true.
Proof. vm_compute. repeat split; reflexivity. Qed.

Lemma isdir_key_ancestors (f : fsys) (k : key) (ds : gset key) :
  dirs f = ds ∪ list_to_set (ancestors k) -> isdir_key f k = true.
Proof.
  intros E. unfold isdir_key. destruct (decide (k.2 = [])) as [Hk|Hk].
  - now rewrite bool_decide_eq_true_2.
  - apply orb_true_iff. right. apply bool_decide_eq_true. rewrite E.
    apply elem_of_union_r, elem_of_list_to_set. now apply ancestors_self.
Qed.




Example create_final_path_ex :
  (create_final_path (py "/d") (py "") (py "test.txt") false st1).1 = Ok (py "/d/test_2..txt")
  /\ (create_final_path (py "/d") (py "a/b") (py "test.txt") false st1).1 = Ok (py "/d/a/b/test.txt")
  /\ isdir_key (fs (create_final_path (py "/d") (py "a/b") (py "test.txt") false st1).2)
       (true, [py "d"; py "a"]) = true
  /\ isdir_key (fs (create_final_path (py "/d") (py "a/b") (py "test.txt") false st1).2)
       (true, [py "d"; py "a"; py "b"]) = true
  /\ (create_final_path (py "/d") (py "test.txt/b") (py "x") false st1).1 = Raise OSError.
Proof. vm_compute. repeat split; reflexivity. Qed.

Module FetchFacts.

Lemma write_chunks_run p cs st c0 :
  files (fs st) !! key_of p = Some c0 ->
  exists st', write_chunks p cs st = (Ok tt, st')
    /\ files (fs st') = <[key_of p := c0 ++ concat cs]> (files (fs st))
    /\ dirs (fs st') = dirs (fs st).
Proof.
  revert st c0. induction cs as [|c cs IH]; intros st c0 H0; simpl.
  - exists st. unfold ret. rewrite app_nil_r, insert_id by assumption. auto.
  - unfold bind, write, put_fs. rewrite H0. simpl default.
    edestruct (IH (State (Fsys (<[key_of p := c0 ++ c]> (files (fs st))) (dirs (fs st)))
                     (bus st) (log st) (net st)) (c0 ++ c)) as (st' & E & Hf & Hd).
    { simpl. apply lookup_insert_eq. }
    exists st'. split; [exact E|]. simpl in Hf, Hd.
    rewrite Hf, Hd, insert_insert_eq, <- app_assoc. auto.
Qed.

(** A response 200 whose stream does not break is written to the path,
    when the path names no directory and its directory exists. *)
Lemma download_and_save_file_200 server G url p r st :
  server url = Responds r -> status_code r = 200 -> stream_error r = None ->
  isdir_key (fs st) (key_of p) = false ->
  isdir_key (fs st) (parent_of p) = true ->
  exists st', download_and_save_file server G url p st = (Ok tt, st')
    /\ files (fs st') = <[key_of p := concat (chunks r)]> (files (fs st))
    /\ dirs (fs st') = dirs (fs st).
Proof.
  intros Hs Hr He Hnd Hpd. unfold download_and_save_file, bind at 1, requests_get.
  rewrite Hs, Hr. change (200 =? 200) with true. cbv iota.
  unfold bind at 1, open_wb. cbn [fs bus log net]. rewrite Hnd, Hpd.
  cbn [orb negb]. unfold put_fs. cbn [fs bus log net].
  unfold stream_to, bind.
  edestruct (write_chunks_run p (chunks r)
               (State (Fsys (<[key_of p := []]> (files (fs st))) (dirs (fs st)))
                  (bus st) (log st) (net st ++ [url])) [])
    as (st' & E & Hf & Hd).
  { simpl. apply lookup_insert_eq. }
  rewrite E, He. exists st'. split; [reflexivity|]. simpl in Hf, Hd.
  rewrite Hf, Hd, insert_insert_eq. auto.
Qed.

Lemma ancestors_shorter k a : a ∈ ancestors k -> length a.2 <= length k.2.
Proof.
  unfold ancestors. intros H. apply list_elem_of_fmap in H as (n & -> & _).
  simpl. rewrite length_take. lia.
Qed.


Lemma key_of_join_name J f :
  sep ∉ f -> f <> [] -> f <> [extsep] ->
  key_of (join J f) = ((key_of J).1, (key_of J).2 ++ [f]).
Proof.
  intros Hf H1 H2. rewrite key_of_join by now apply nosep_not_abs.
  unfold components. rewrite split_nosep by assumption.
  now rewrite filter_cons_True, filter_nil.
Qed.

Lemma target_not_ancestor J f :
  sep ∉ f -> f <> [] -> f <> [extsep] -> key_of (join J f) ∉ ancestors (key_of J).
Proof.
  intros Hf H1 H2 H. apply ancestors_shorter in H.
  rewrite key_of_join_name in H by assumption. simpl in H.
  rewrite length_app in H. simpl in H. lia.
Qed.

(** One request with [overwrite] set, answered by 200. *)
Lemma allocate_and_fetch_overwrite server G dp sd f url r st :
  sep ∉ f -> f <> [] -> f <> [extsep] ->
  (truthy sd = false -> isdir_key (fs st) (key_of dp) = true) ->
  (forall a, a ∈ ancestors (key_of (target_dir dp sd)) -> files (fs st) !! a = None) ->
  key_of (join (target_dir dp sd) f) ∉ dirs (fs st) ->
  server url = Responds r -> status_code r = 200 -> stream_error r = None ->
  exists st',
    allocate_and_fetch server G dp sd f true url st
      = (Ok (join (target_dir dp sd) f), st')
    /\ files (fs st')
        = <[key_of (join (target_dir dp sd) f) := concat (chunks r)]> (files (fs st))
    /\ dirs (fs st')
        = (if truthy sd
           then dirs (fs st) ∪ list_to_set (ancestors (key_of (target_dir dp sd)))
           else dirs (fs st)).
Proof.
  intros Hf Hn1 Hn2 Hdir Hway Hnd Hs Hr He. unfold allocate_and_fetch, bind at 1.
  destruct (create_final_path_cases dp sd f true st Hf)
    as [(_ & (a & Ha & Hfile) & _)|(q & st1 & -> & Hfiles & Hdirs & _ & _ & _ & Hq & _ & Hpar & _)].
  { rewrite (Hway a Ha) in Hfile. now destruct Hfile. }
  rewrite (Hq eq_refl) in *. clear Hq.
  edestruct (download_and_save_file_200 server G url (join (target_dir dp sd) f) r st1)
    as (st' & E & Hf' & Hd'); try eassumption.
  - unfold isdir_key. apply orb_false_iff. split; apply bool_decide_eq_false.
    + rewrite key_of_join_name by assumption. cbn [snd].
      intros H. apply app_eq_nil in H as [_ H]. discriminate.
    + rewrite Hdirs. destruct (truthy sd); [|assumption].
      rewrite not_elem_of_union, elem_of_list_to_set. split; [assumption|].
      now apply target_not_ancestor.
  - rewrite Hpar. destruct (truthy sd) eqn:Esd.
    + now apply (isdir_key_ancestors _ _ (dirs (fs st))).
    + unfold isdir_key in *. rewrite Hdirs. unfold target_dir. rewrite Esd. now apply Hdir.
  - exists st'. unfold bind. rewrite E. split; [reflexivity|].
    rewrite Hf', Hd', Hfiles, Hdirs. auto.
Qed.

End FetchFacts.

Import FetchFacts.

(** With [overwrite] set the allocator skips the renaming: two
    requests for the same name, each answered by 200, are given the same
    path [directory/subdirectory/filename], both succeed, and after the
    second the files are those there were before plus the one at that
    path, which holds the second body. *)
Theorem overwrite_keeps_one_file
    (server1 server2 : str -> reply) (G : genv)
    (download_path subdir filename url : str) (r1 r2 : response) (st : state) :
  (sep ∉ filename) -> filename <> [] -> filename <> [extsep] ->
  (truthy subdir = false -> isdir_key (fs st) (key_of download_path) = true) ->
  (forall a, a ∈ ancestors (key_of (target_dir download_path subdir)) ->
             files (fs st) !! a = None) ->
  key_of (join (target_dir download_path subdir) filename) ∉ dirs (fs st) ->
  server1 url = Responds r1 -> status_code r1 = 200 -> stream_error r1 = None ->
  server2 url = Responds r2 -> status_code r2 = 200 -> stream_error r2 = None ->
  let p := join (target_dir download_path subdir) filename in
  exists st1 st2,
    allocate_and_fetch server1 G download_path subdir filename true url st = (Ok p, st1)
    /\ allocate_and_fetch server2 G download_path subdir filename true url st1 = (Ok p, st2)
    /\ dom (files (fs st1)) = {[ key_of p ]} ∪ dom (files (fs st))
    /\ dom (files (fs st2)) = dom (files (fs st1))
    /\ files (fs st2) !! key_of p = Some (concat (chunks r2))
    /\ (forall k, k <> key_of p -> files (fs st2) !! k = files (fs st) !! k).
Proof.
  intros Hf Hn1 Hn2 Hdir Hway Hnd Hs1 Hr1 He1 Hs2 Hr2 He2 p.
  destruct (allocate_and_fetch_overwrite server1 G download_path subdir filename url r1 st)
    as (st1 & E1 & Hf1 & Hd1); try assumption.
  destruct (allocate_and_fetch_overwrite server2 G download_path subdir filename url r2 st1)
    as (st2 & E2 & Hf2 & Hd2); try assumption.
  - intros Esd. unfold isdir_key in *. rewrite Hd1, Esd. now apply Hdir.
  - intros a Ha. rewrite Hf1, lookup_insert_ne; [now apply Hway|].
    intros <-. now apply (target_not_ancestor (target_dir download_path subdir) filename).
  - rewrite Hd1. destruct (truthy subdir); [|assumption].
    rewrite not_elem_of_union, elem_of_list_to_set. split; [assumption|].
    now apply target_not_ancestor.
  - exists st1, st2. fold p in E1, E2, Hf1, Hf2.
    split; [exact E1|]. split; [exact E2|].
    split; [rewrite Hf1; apply dom_insert_L|].
    split; [rewrite Hf2, Hf1, insert_insert_eq, !dom_insert_L; reflexivity|].
    split; [rewrite Hf2; apply lookup_insert_eq|].
    intros k Hk. now rewrite Hf2, Hf1, !lookup_insert_ne.
Qed.


Lemma overwrite_keeps_one_file_witness :
  let p := join (target_dir (py "/d") (py "")) (py "test.txt") in
  exists st1 st2,
    allocate_and_fetch server_hello module_globals (py "/d") (py "") (py "test.txt")
      true url_test st0 = (Ok p, st1)
    /\ allocate_and_fetch server_hello module_globals (py "/d") (py "") (py "test.txt")
         true url_test st1 = (Ok p, st2)
    /\ dom (files (fs st1)) = {[ key_of p ]} ∪ dom (files (fs st0))
    /\ dom (files (fs st2)) = dom (files (fs st1))
    /\ files (fs st2) !! key_of p = Some (concat (chunks hello))
    /\ (forall k, k <> key_of p -> files (fs st2) !! k = files (fs st0) !! k).
Proof.
  apply (overwrite_keeps_one_file server_hello server_hello module_globals
           (py "/d") (py "") (py "test.txt") url_test hello hello st0).
  - apply (bool_decide_unpack _). vm_compute. exact I.
  - discriminate.
  - discriminate.
  - intros _. vm_compute. reflexivity.
  - intros a _. apply lookup_empty.
  - apply (bool_decide_unpack _). vm_compute. exact I.
  - reflexivity.
  - reflexivity.
  - reflexivity.
  - reflexivity.
  - reflexivity.
  - reflexivity.
Defined.

(** * Further properties of the module *)
Module FailureFacts.

Lemma handle_download_failure_run G url fn p e st :
  exists st',
    handle_download_failure G url fn p e st
      = (if g_hass G then Ok tt else Raise (NameError "hass"), st')
    /\ files (fs st') = cleaned p (files (fs st))
    /\ dirs (fs st') = dirs (fs st)
    /\ bus st' = (if g_hass G then bus st ++ [Event failed_event url fn] else bus st)
    /\ log st' = (match e with Some _ => log st ++ [ERROR] | None => log st end)
    /\ net st' = net st.
Proof.
  unfold handle_download_failure, cleaned, global_hass.
  unfold bind, logger, get_fs, ret, raise, bus_fire, os_remove, put_fs.
  assert (Hid : isfile (fs st) p = false -> delete (key_of p) (files (fs st)) = files (fs st)).
  { unfold isfile. intros H. apply bool_decide_eq_false in H. apply delete_id.
    destruct (files (fs st) !! key_of p) eqn:E; [|reflexivity]. destruct H. now eexists. }
  destruct e; cbn [fs bus log net]; destruct (truthy p); cbn [andb];
    destruct (isfile (fs st) p) eqn:Ef; cbn [fs bus log net];
    try rewrite Ef; destruct (g_hass G); eexists; cbn [fs bus log net files dirs];
    rewrite ?Hid by reflexivity; repeat split; reflexivity.
Qed.

End FailureFacts.

Import FailureFacts.

(** X1. [handle_download_failure] always runs the cleanup first: once it
    is over no file is left at [final_path] (an empty [final_path] names
    none), every other file and every directory is as before and nothing
    is requested.  It then fires exactly one [download_failed] event with
    the url and filename it was given when [hass] is bound, and raises
    [NameError] without firing any when it is not.  The error is logged
    exactly when an exception was passed. *)
Theorem handle_download_failure_cleans_then_fires
    (G : genv) (url : str) (filename : option str) (final_path : str)
    (exception : option exn) (st : state) :
  let r := handle_download_failure G url filename final_path exception st in
  r.1 = (if g_hass G then Ok tt else Raise (NameError "hass"))
  /\ (truthy final_path = true -> isfile (fs r.2) final_path = false)
  /\ (forall k, k <> key_of final_path -> files (fs r.2) !! k = files (fs st) !! k)
  /\ dirs (fs r.2) = dirs (fs st)
  /\ bus r.2 = (if g_hass G then bus st ++ [Event failed_event url filename]
                else bus st)
  /\ log r.2 = (match exception with Some _ => log st ++ [ERROR] | None => log st end)
  /\ net r.2 = net st.
Proof.
  intros r. unfold r.
  destruct (handle_download_failure_run G url filename final_path exception st)
    as (st' & -> & Hf & Hd & Hb & Hl & Hn).
  cbn [fst snd]. unfold cleaned in Hf.
  split; [reflexivity|]. split.
  { intros Ht. rewrite Ht in Hf. unfold isfile. apply bool_decide_eq_false.
    rewrite Hf, lookup_delete_eq. now intros [? ?]. }
  split.
  { intros k Hk. rewrite Hf. destruct (truthy final_path); [|reflexivity].
    now apply lookup_delete_ne. }
  auto.
Qed.

Module FetchCases.

Lemma write_chunks_traces p cs st :
  bus (write_chunks p cs st).2 = bus st
  /\ log (write_chunks p cs st).2 = log st
  /\ net (write_chunks p cs st).2 = net st
  /\ (write_chunks p cs st).1 = Ok tt.
Proof.
  revert st. induction cs as [|c cs IH]; intros st; simpl; [auto|].
  unfold bind, write, put_fs.
  destruct (IH (State (Fsys (<[key_of p := default [] (files (fs st) !! key_of p) ++ c]>
                               (files (fs st))) (dirs (fs st)))
                  (bus st) (log st) (net st))) as (H1 & H2 & H3 & H4).
  destruct (write_chunks p cs _) as [[| |] st'] eqn:E; simpl in *;
    try discriminate; auto.
Qed.

(** What [download_and_save_file] does on a response 200 to a path it
    can open: the outcome is that of the stream, and the file holds the
    chunks received. *)
Lemma download_and_save_file_stream server G url p r st :
  server url = Responds r -> status_code r = 200 ->
  isdir_key (fs st) (key_of p) = false ->
  isdir_key (fs st) (parent_of p) = true ->
  exists st',
    download_and_save_file server G url p st
      = (match stream_error r with Some e => Raise e | None => Ok tt end, st')
    /\ files (fs st') = <[key_of p := concat (chunks r)]> (files (fs st))
    /\ dirs (fs st') = dirs (fs st)
    /\ bus st' = bus st /\ log st' = log st /\ net st' = net st ++ [url].
Proof.
  intros Hs Hr Hnd Hpd. unfold download_and_save_file, bind at 1, requests_get.
  rewrite Hs, Hr. change (200 =? 200) with true. cbv iota.
  unfold bind at 1, open_wb. cbn [fs bus log net]. rewrite Hnd, Hpd.
  cbn [orb negb]. unfold put_fs. cbn [fs bus log net].
  unfold stream_to, bind.
  set (st1 := State (Fsys (<[key_of p := []]> (files (fs st))) (dirs (fs st)))
                (bus st) (log st) (net st ++ [url])).
  destruct (write_chunks_run p (chunks r) st1 []) as (st' & E & Hf & Hd).
  { simpl. apply lookup_insert_eq. }
  destruct (write_chunks_traces p (chunks r) st1) as (Hb & Hl & Hn & _).
  rewrite E in *. cbn [snd] in *. simpl in Hf, Hd, Hb, Hl, Hn.
  exists st'. split.
  { destruct (stream_error r); reflexivity. }
  rewrite Hf, Hd, insert_insert_eq. auto.
Qed.

Lemma download_and_save_file_non_200_run server G url p r st :
  server url = Responds r -> status_code r <> 200 ->
  exists st',
    download_and_save_file server G url p st
      = (if g_hass G then Ok tt else Raise (NameError "hass"), st')
    /\ files (fs st') = cleaned p (files (fs st))
    /\ dirs (fs st') = dirs (fs st)
    /\ bus st' = (if g_hass G then bus st ++ [Event failed_event url None] else bus st)
    /\ log st' = log st ++ [WARNING]
    /\ net st' = net st ++ [url].
Proof.
  intros Hs Hr. unfold download_and_save_file, bind at 1, requests_get.
  rewrite Hs. apply Nat.eqb_neq in Hr. rewrite Hr.
  unfold bind, logger. cbn [fs bus log net].
  match goal with
  | |- context [handle_download_failure _ _ _ _ _ ?s] =>
      destruct (handle_download_failure_run G url None p None s)
        as (st' & -> & Hf & Hd & Hb & Hl & Hn)
  end.
  cbn [fs bus log net] in *. exists st'.
  destruct (g_hass G); repeat split; assumption.
Qed.

End FetchCases.

Import FetchCases.

(** X2. A response 200 whose stream ends well is written in full: the
    file at [final_path] holds the chunks in order, whatever it held
    before; no other file changes, no event is fired and nothing is
    logged, and the URL is requested once. *)
Theorem download_and_save_file_writes_body
    (server : str -> reply) (G : genv) (url final_path : str) (r : response)
    (st : state) :
  server url = Responds r -> status_code r = 200 -> stream_error r = None ->
  isdir_key (fs st) (key_of final_path) = false ->
  isdir_key (fs st) (parent_of final_path) = true ->
  let o := download_and_save_file server G url final_path st in
  o.1 = Ok tt
  /\ files (fs o.2) !! key_of final_path = Some (concat (chunks r))
  /\ (forall k, k <> key_of final_path -> files (fs o.2) !! k = files (fs st) !! k)
  /\ dirs (fs o.2) = dirs (fs st)
  /\ bus o.2 = bus st /\ log o.2 = log st /\ net o.2 = net st ++ [url].
Proof.
  intros Hs Hr He Hnd Hpd o. unfold o.
  destruct (download_and_save_file_stream server G url final_path r st Hs Hr Hnd Hpd)
    as (st' & -> & Hf & Hd & Hb & Hl & Hn).
  rewrite He. cbn [fst snd]. rewrite Hf.
  split; [reflexivity|]. split; [apply lookup_insert_eq|].
  split; [intros k Hk; now apply lookup_insert_ne|]. auto.
Qed.

Lemma download_and_save_file_writes_body_witness :
  let o := download_and_save_file server_hello module_globals url_test
             (py "/d/test.txt") st1 in
  o.1 = Ok tt
  /\ files (fs o.2) !! key_of (py "/d/test.txt") = Some (concat (chunks hello))
  /\ (forall k, k <> key_of (py "/d/test.txt") ->
                files (fs o.2) !! k = files (fs st1) !! k)
  /\ dirs (fs o.2) = dirs (fs st1)
  /\ bus o.2 = bus st1 /\ log o.2 = log st1 /\ net o.2 = net st1 ++ [url_test].
Proof.
  apply (download_and_save_file_writes_body server_hello module_globals url_test
           (py "/d/test.txt") hello st1); reflexivity.
Defined.

(** X3. When the stream of a response 200 breaks, [download_and_save_file]
    raises the exception of the stream and leaves the part received on
    disk: the file at [final_path] holds the chunks that arrived, and no
    event is fired.  The cleanup is left to the caller. *)
Theorem download_and_save_file_leaves_partial_file
    (server : str -> reply) (G : genv) (url final_path : str) (r : response)
    (e : exn) (st : state) :
  server url = Responds r -> status_code r = 200 -> stream_error r = Some e ->
  isdir_key (fs st) (key_of final_path) = false ->
  isdir_key (fs st) (parent_of final_path) = true ->
  let o := download_and_save_file server G url final_path st in
  o.1 = Raise e
  /\ files (fs o.2) !! key_of final_path = Some (concat (chunks r))
  /\ bus o.2 = bus st.
Proof.
  intros Hs Hr He Hnd Hpd o. unfold o.
  destruct (download_and_save_file_stream server G url final_path r st Hs Hr Hnd Hpd)
    as (st' & -> & Hf & Hd & Hb & Hl & Hn).
  rewrite He. cbn [fst snd]. rewrite Hf.
  split; [reflexivity|]. split; [apply lookup_insert_eq|assumption].
Qed.

Lemma download_and_save_file_leaves_partial_file_witness :
  let o := download_and_save_file server_broken bound_globals url_test
             (py "/d/test.txt") st0 in
  o.1 = Raise ConnectionError
  /\ files (fs o.2) !! key_of (py "/d/test.txt") = Some (concat (chunks broken))
  /\ bus o.2 = bus st0.
Proof.
  apply (download_and_save_file_leaves_partial_file server_broken bound_globals
           url_test (py "/d/test.txt") broken ConnectionError st0); reflexivity.
Defined.

(** X4. A response other than 200 deletes the file that is at
    [final_path], also one a former request completed: after the call no
    file is there, the other files are untouched, one warning is logged,
    and [download_failed] is fired with filename [None] when [hass] is
    bound ([NameError] is raised after the cleanup when it is not). *)
Theorem download_and_save_file_non_200_removes_file
    (server : str -> reply) (G : genv) (url final_path : str) (r : response)
    (st : state) :
  server url = Responds r -> status_code r <> 200 -> truthy final_path = true ->
  let o := download_and_save_file server G url final_path st in
  o.1 = (if g_hass G then Ok tt else Raise (NameError "hass"))
  /\ isfile (fs o.2) final_path = false
  /\ (forall k, k <> key_of final_path -> files (fs o.2) !! k = files (fs st) !! k)
  /\ bus o.2 = (if g_hass G then bus st ++ [Event failed_event url None] else bus st)
  /\ log o.2 = log st ++ [WARNING]
  /\ net o.2 = net st ++ [url].
Proof.
  intros Hs Hr Ht o.
  destruct (download_and_save_file_non_200_run server G url final_path r st Hs Hr)
    as (st' & E & Hf & Hd & Hb & Hl & Hn).
  unfold o. rewrite E. cbn [fst snd]. unfold cleaned in Hf. rewrite Ht in Hf.
  split; [reflexivity|]. split.
  { unfold isfile. apply bool_decide_eq_false. rewrite Hf, lookup_delete_eq.
    now intros [? ?]. }
  split; [intros k Hk; rewrite Hf; now apply lookup_delete_ne|]. auto.
Qed.

Lemma download_and_save_file_non_200_removes_file_witness :
  let o := download_and_save_file server_404 bound_globals url_test
             (py "/d/test.txt") st1 in
  o.1 = (if g_hass bound_globals then Ok tt else Raise (NameError "hass"))
  /\ isfile (fs o.2) (py "/d/test.txt") = false
  /\ (forall k, k <> key_of (py "/d/test.txt") ->
                files (fs o.2) !! k = files (fs st1) !! k)
  /\ bus o.2 = (if g_hass bound_globals
                then bus st1 ++ [Event failed_event url_test None] else bus st1)
  /\ log o.2 = log st1 ++ [WARNING]
  /\ net o.2 = net st1 ++ [url_test].
Proof.
  apply (download_and_save_file_non_200_removes_file server_404 bound_globals
           url_test (py "/d/test.txt") not_found st1);
    [reflexivity|discriminate|reflexivity].
Defined.

(** X5. A response 200 to a path that cannot be opened, because it names
    a directory or because its directory does not exist, raises [OSError]
    after the request was made; the file system is unchanged and no event
    is fired. *)
Theorem download_and_save_file_cannot_open
    (server : str -> reply) (G : genv) (url final_path : str) (r : response)
    (st : state) :
  server url = Responds r -> status_code r = 200 ->
  isdir_key (fs st) (key_of final_path) = true
  \/ isdir_key (fs st) (parent_of final_path) = false ->
  let o := download_and_save_file server G url final_path st in
  o.1 = Raise OSError /\ fs o.2 = fs st /\ bus o.2 = bus st
  /\ net o.2 = net st ++ [url].
Proof.
  intros Hs Hr Hbad o.
  assert (E : o = (Raise OSError, State (fs st) (bus st) (log st) (net st ++ [url]))).
  { unfold o, download_and_save_file, bind at 1, requests_get.
    rewrite Hs, Hr. change (200 =? 200) with true. cbv iota.
    unfold bind, open_wb. cbn [fs bus log net].
    assert (E : isdir_key (fs st) (key_of final_path)
                || negb (isdir_key (fs st) (parent_of final_path)) = true).
    { destruct Hbad as [-> | ->]; [reflexivity|apply orb_true_r]. }
    now rewrite E. }
  rewrite E. auto.
Qed.

Lemma download_and_save_file_cannot_open_witness :
  let o := download_and_save_file server_hello bound_globals (py "http://x/")
             (py "/d/") st0 in
  o.1 = Raise OSError /\ fs o.2 = fs st0 /\ bus o.2 = bus st0
  /\ net o.2 = net st0 ++ [py "http://x/"].
Proof.
  apply (download_and_save_file_cannot_open server_hello bound_globals
           (py "http://x/") (py "/d/") hello st0); [reflexivity|reflexivity|].
  left. vm_compute. reflexivity.
Defined.

Module RenameFacts.

Lemma unique_loop_first_free f path ext fuel t p q :
  unique_loop f path ext fuel t p = Some q ->
  (isfile f p = false /\ q = p)
  \/ (isfile f p = true /\ exists k, t < k /\ q = candidate path ext k
        /\ isfile f q = false
        /\ forall j, t < j < k -> isfile f (candidate path ext j) = true).
Proof.
  revert t p. induction fuel as [|fuel IH]; intros t p; simpl.
  - destruct (isfile f p) eqn:E; [discriminate|]. intros [= <-]. now left.
  - destruct (isfile f p) eqn:E; [|intros [= <-]; now left].
    intros H. right. split; [reflexivity|].
    apply IH in H as [[Hfree ->]|(Hfile & k & Hk & -> & Hfree & Hall)].
    + exists (S t). repeat split; [lia|assumption|]. intros j Hj. lia.
    + exists k. repeat split; [lia|assumption|]. intros j Hj.
      destruct (decide (j = S t)) as [->|Hn]; [assumption|]. apply Hall. lia.
Qed.

Lemma piece_longer r e k : length (piece r e k) > length (r ++ e).
Proof. unfold piece. rewrite !length_app. simpl. lia. Qed.

End RenameFacts.

Import RenameFacts.

(** X6. [ensure_unique_filename] returns the first free name: the path
    itself when no file is there, and otherwise the candidate
    [f"{path}_{k}.{ext}"] with the least [k >= 2] that names no file, all
    the candidates before it being taken.  It always returns, and it
    changes nothing. *)
Theorem ensure_unique_filename_first_free (final_path : str) (st : state) :
  exists q,
    ensure_unique_filename final_path st = (Ok q, st)
    /\ isfile (fs st) q = false
    /\ ((isfile (fs st) final_path = false /\ q = final_path)
        \/ (isfile (fs st) final_path = true
            /\ exists k, 2 <= k
                 /\ q = candidate (splitext final_path).1 (splitext final_path).2 k
                 /\ forall j, 2 <= j < k ->
                      isfile (fs st)
                        (candidate (splitext final_path).1 (splitext final_path).2 j)
                      = true)).
Proof.
  destruct (path_decomp final_path) as (h & r & e & Hs & Hh & Ht & Hp & Hpar).
  unfold ensure_unique_filename, bind, get_fs. rewrite Hs. cbn [fst snd].
  destruct (unique_loop _ _ _ _ _ _) as [q|] eqn:E.
  - exists q. split; [reflexivity|].
    destruct (unique_loop_first_free _ _ _ _ _ _ _ E)
      as [[Hfree ->]|(Hfile & k & Hk & -> & Hfree & Hall)].
    + split; [assumption|]. now left.
    + split; [assumption|]. right. split; [assumption|].
      exists k. repeat split; [lia|]. intros j Hj. apply Hall. lia.
  - now apply unique_loop_total in E.
Qed.

(** X7. The names the renaming loop tries never leave the directory of
    the path and never meet: the candidates for two different counters
    name different files, none of them names the file of the path itself,
    and each lies in the directory of the path. *)
Theorem candidates_distinct_in_same_directory (final_path : str) (k k' : nat) :
  let path := (splitext final_path).1 in
  let ext := (splitext final_path).2 in
  (k <> k' -> key_of (candidate path ext k) <> key_of (candidate path ext k'))
  /\ key_of (candidate path ext k) <> key_of final_path
  /\ parent_of (candidate path ext k) = parent_of final_path.
Proof.
  destruct (path_decomp final_path) as (h & r & e & Hs & Hh & Ht & Hp & Hpar).
  rewrite Hs. cbn [fst snd]. split; [|split].
  - intros Hk E. apply Hk. now apply (key_of_candidate_inj h r e).
  - rewrite key_of_candidate by assumption.
    rewrite Hp, key_of_app by assumption.
    intros E. injection E as E. apply app_inv_head in E.
    pose proof (piece_longer r e k) as Hl.
    destruct (decide (r ++ e <> [] /\ r ++ e <> [extsep])) as [Hd|Hd].
    + rewrite filter_cons_True, filter_nil in E by assumption.
      injection E as E. rewrite E in Hl. lia.
    + rewrite filter_cons_False, filter_nil in E by assumption. discriminate.
  - rewrite candidate_piece, parent_of_app, Hpar by auto using piece_nosep.
    reflexivity.
Qed.

Module StripFacts.

Lemma lstrip_elem f s x : x ∈ lstrip f s -> x ∈ s.
Proof.
  induction s as [|c s IH]; simpl; [auto|].
  destruct (f c); [|auto]. intros H. apply elem_of_cons. right. auto.
Qed.

Lemma lstrip_head f s c rest : lstrip f s = c :: rest -> f c = false.
Proof.
  induction s as [|a s IH]; simpl; [discriminate|].
  destruct (f a) eqn:E; [auto|]. now intros [= <- _].
Qed.

Lemma lstrip_snoc f l c : f c = false -> lstrip f (l ++ [c]) = lstrip f l ++ [c].
Proof.
  intros Hc. induction l as [|a l IH]; simpl; [now rewrite Hc|].
  now destruct (f a).
Qed.

Lemma rstrip_elem f s x : x ∈ rstrip f s -> x ∈ s.
Proof.
  unfold rstrip. intros H. apply list_elem_of_In, in_rev, list_elem_of_In in H.
  apply lstrip_elem in H. now apply list_elem_of_In, in_rev, list_elem_of_In.
Qed.

Lemma rstrip_last f s init c : rstrip f s = init ++ [c] -> f c = false.
Proof.
  unfold rstrip. intros H. apply (f_equal (@rev _)) in H.
  rewrite rev_involutive, rev_app_distr in H. simpl in H.
  now apply lstrip_head in H.
Qed.

Lemma strip_elem f s x : x ∈ strip f s -> x ∈ s.
Proof. unfold strip. intros H. now apply rstrip_elem, lstrip_elem in H. Qed.

Lemma strip_last f s init c : strip f s = init ++ [c] -> f c = false.
Proof. unfold strip. apply rstrip_last. Qed.

Lemma strip_head f s c rest : strip f s = c :: rest -> f c = false.
Proof.
  unfold strip. destruct (lstrip f s) as [|c0 t] eqn:E; [discriminate|].
  pose proof (lstrip_head f s c0 t E) as Hc0.
  unfold rstrip. simpl rev at 2. rewrite lstrip_snoc by assumption.
  rewrite rev_app_distr. simpl. now intros [= <- _].
Qed.

Lemma basename_nosep p : sep ∉ basename p.
Proof. unfold basename. apply rsplit_spec. Qed.

Lemma startswith_app p s : startswith p s = true -> s = p ++ skipn (length p) s.
Proof.
  revert s. induction p as [|a p IH]; intros s; simpl; [reflexivity|].
  destruct s as [|b s]; [discriminate|]. intros H.
  apply andb_true_iff in H as [H1 H2]. apply eqc_true in H1. subst b.
  f_equal. now apply IH.
Qed.

Lemma span_spec f s :
  s = (span f s).1 ++ (span f s).2
  /\ (forall c, c ∈ (span f s).1 -> f c = true)
  /\ (forall c rest, (span f s).2 = c :: rest -> f c = false).
Proof.
  induction s as [|a s (IH1 & IH2 & IH3)]; simpl.
  - repeat split; [intros c H; now apply elem_of_nil in H|discriminate].
  - destruct (f a) eqn:E.
    + destruct (span f s) as [x y]. simpl in *. repeat split.
      * now f_equal.
      * intros c H. apply elem_of_cons in H as [->|H]; auto.
      * assumption.
    + simpl. repeat split; [intros c H; now apply elem_of_nil in H|].
      now intros c rest [= <- _].
Qed.

Lemma findall_first_sound h m :
  findall_first h = Some m ->
  exists pre post,
    h = pre ++ py "filename=" ++ m ++ post
    /\ m <> []
    /\ (forall c, c ∈ m -> isspace c = false)
    /\ (forall c rest, post = c :: rest -> isspace c = true).
Proof.
  induction h as [|a h IH]; [discriminate|].
  unfold findall_first; fold findall_first.
  assert (Hrec : findall_first h = Some m ->
    exists pre post, a :: h = pre ++ py "filename=" ++ m ++ post /\ m <> []
      /\ (forall c, c ∈ m -> isspace c = false)
      /\ (forall c rest, post = c :: rest -> isspace c = true)).
  { intros H. destruct (IH H) as (pre & post & -> & H1 & H2 & H3).
    exists (a :: pre), post. auto. }
  destruct (startswith (py "filename=") (a :: h)) eqn:Es; [|exact Hrec].
  apply startswith_app in Es. change (length (py "filename=")) with 9 in Es.
  destruct (span_spec (fun c => negb (isspace c)) (skipn 9 (a :: h))) as (S1 & S2 & S3).
  destruct (span _ (skipn 9 (a :: h))) as [v rest]. cbn [fst snd] in *.
  destruct v as [|c v]; [exact Hrec|]. cbn [truthy]. intros [= <-].
  exists [], rest. split; [rewrite Es at 1; now rewrite S1|].
  split; [discriminate|]. split.
  - intros x Hx. apply S2 in Hx. now apply negb_true_iff in Hx.
  - intros x r Hr. apply S3 in Hr. now apply negb_false_iff in Hr.
Qed.

End StripFacts.

Import StripFacts.

(** X8. A filename taken from the URL is a single name: when no filename
    is given and the response has no [content-disposition] header, the
    resolver returns the trimmed last segment of the URL, which holds no
    path separator and neither starts nor ends with whitespace (it may be
    empty). *)
Theorem url_filename_has_no_separator
    (G : genv) (r : response) (url : str) (filename : option str) (st : state) :
  g_req G = Some r -> content_disposition r = None ->
  truthy_opt filename = false ->
  exists f,
    resolve_filename G url filename st = (Ok f, st)
    /\ f = strip isspace (basename url)
    /\ (sep ∉ f)
    /\ (forall c rest, f = c :: rest -> isspace c = false)
    /\ (forall init c, f = init ++ [c] -> isspace c = false).
Proof.
  intros Hg Hcd Hfn. exists (strip isspace (basename url)).
  split.
  { rewrite (resolve_filename_bound G r) by assumption.
    unfold resolved_name, header_name. now rewrite Hfn, Hcd. }
  split; [reflexivity|]. split.
  { intros H. apply strip_elem in H. now apply basename_nosep in H. }
  split; [intros c rest; apply strip_head|intros init c; apply strip_last].
Qed.

Lemma url_filename_has_no_separator_witness :
  exists f,
    resolve_filename bound_globals (py "http://x/a/ test.txt ") None st0 = (Ok f, st0)
    /\ f = strip isspace (basename (py "http://x/a/ test.txt "))
    /\ (sep ∉ f)
    /\ (forall c rest, f = c :: rest -> isspace c = false)
    /\ (forall init c, f = init ++ [c] -> isspace c = false).
Proof.
  apply (url_filename_has_no_separator bound_globals hello
           (py "http://x/a/ test.txt ") None st0); reflexivity.
Defined.

(** X9. A filename taken from the header is the text that follows a
    [filename=] in the header up to the next whitespace, without the
    quotes and blanks at its ends: it holds no whitespace and neither
    starts nor ends with a quote, and a quoted name that holds a blank is
    cut at the blank. *)
Theorem header_filename_has_no_whitespace
    (G : genv) (r : response) (url : str) (filename : option str) (st : state)
    (h f0 : str) :
  g_req G = Some r -> content_disposition r = Some h ->
  truthy_opt filename = false ->
  header_name r = Some f0 -> truthy f0 = true ->
  resolve_filename G url filename st = (Ok f0, st)
  /\ (forall c, c ∈ f0 -> isspace c = false)
  /\ (forall c rest, f0 = c :: rest -> quote_or_blank c = false)
  /\ (forall init c, f0 = init ++ [c] -> quote_or_blank c = false)
  /\ exists pre m post,
       h = pre ++ py "filename=" ++ m ++ post
       /\ f0 = strip quote_or_blank m
       /\ (forall c, c ∈ m -> isspace c = false)
       /\ (forall c rest, post = c :: rest -> isspace c = true).
Proof.
  intros Hg Hcd Hfn Hh Ht. split.
  { rewrite (resolve_filename_bound G r) by assumption.
    unfold resolved_name. now rewrite Hfn, Hh, Ht. }
  unfold header_name in Hh. rewrite Hcd in Hh.
  destruct (findall_first h) as [m|] eqn:Em; [|discriminate].
  injection Hh as <-.
  destruct (findall_first_sound h m Em) as (pre & post & Hhd & _ & Hm & Hpost).
  split; [intros c Hc; apply Hm; now apply strip_elem in Hc|].
  split; [intros c rest; apply strip_head|].
  split; [intros init c; apply strip_last|].
  exists pre, m, post. auto.
Qed.

Lemma header_filename_has_no_whitespace_witness :
  resolve_filename header_globals url_test None st0 = (Ok (py "report.pdf"), st0)
  /\ (forall c, c ∈ py "report.pdf" -> isspace c = false)
  /\ (forall c rest, py "report.pdf" = c :: rest -> quote_or_blank c = false)
  /\ (forall init c, py "report.pdf" = init ++ [c] -> quote_or_blank c = false)
  /\ exists pre m post,
       py "attachment; filename='report.pdf'" = pre ++ py "filename=" ++ m ++ post
       /\ py "report.pdf" = strip quote_or_blank m
       /\ (forall c, c ∈ m -> isspace c = false)
       /\ (forall c rest, post = c :: rest -> isspace c = true).
Proof.
  apply (header_filename_has_no_whitespace header_globals a_header url_test None st0
           (py "attachment; filename='report.pdf'") (py "report.pdf")); reflexivity.
Defined.

(** X10. [resolve_filename] reads and never writes: whatever the
    namespace, it leaves the state as it is.  It fails in one way only,
    with [NameError] on [req], and does so exactly when no filename is
    given and [req] is not bound; an explicit non-empty filename is
    returned as it is whatever the header and the URL say. *)
Theorem resolve_filename_reads_only
    (G : genv) (url : str) (filename : option str) (st : state) :
  (resolve_filename G url filename st).2 = st
  /\ ((resolve_filename G url filename st).1 = Raise (NameError "req")
      <-> truthy_opt filename = false /\ g_req G = None)
  /\ ((exists f, (resolve_filename G url filename st).1 = Ok f)
      <-> truthy_opt filename = true \/ g_req G <> None)
  /\ (forall f, filename = Some f -> truthy f = true ->
        (resolve_filename G url filename st).1 = Ok f).
Proof.
  destruct (truthy_opt filename) eqn:Et.
  - rewrite resolve_filename_explicit by assumption. cbn [fst snd].
    split; [reflexivity|]. split; [split; [discriminate|intros [? _]; discriminate]|].
    split; [split; [auto|intros _; now eexists]|].
    now intros f ->.
  - destruct (g_req G) as [r|] eqn:Eg.
    + rewrite (resolve_filename_bound G r) by assumption. cbn [fst snd].
      split; [reflexivity|]. split; [split; [discriminate|intros [_ ?]; discriminate]|].
      split; [split; [intros _; right; discriminate|intros _; now eexists]|].
      intros f -> Hf. simpl in Et. congruence.
    + rewrite resolve_filename_unbound by assumption. cbn [fst snd].
      split; [reflexivity|]. split; [split; auto|].
      split; [split; [intros [f Hf]; discriminate|intros [?|?]; congruence]|].
      intros f -> Hf. simpl in Et. congruence.
Qed.

Module RunFacts.

Lemma create_final_path_frame dp sd f ow st :
  exists o st',
    create_final_path dp sd f ow st = (o, st')
    /\ o <> OutOfFuel
    /\ (forall e, o = Raise e -> st' = st)
    /\ files (fs st') = files (fs st)
    /\ dirs (fs st) ⊆ dirs (fs st')
    /\ bus st' = bus st /\ log st' = log st /\ net st' = net st.
Proof.
  unfold create_final_path, bind.
  assert (Hfin : forall p st1,
    files (fs st1) = files (fs st) -> dirs (fs st) ⊆ dirs (fs st1) ->
    bus st1 = bus st -> log st1 = log st -> net st1 = net st ->
    exists o st',
      (if negb ow then ensure_unique_filename p else ret p) st1 = (o, st')
      /\ o <> OutOfFuel
      /\ (forall e, o = Raise e -> st' = st)
      /\ files (fs st') = files (fs st)
      /\ dirs (fs st) ⊆ dirs (fs st')
      /\ bus st' = bus st /\ log st' = log st /\ net st' = net st).
  { intros p st1 H1 H2 H3 H4 H5. destruct ow; simpl.
    - exists (Ok p), st1. unfold ret. repeat split; auto; discriminate.
    - destruct (ensure_unique_filename_spec p st1) as (q & -> & _).
      exists (Ok q), st1. repeat split; auto; discriminate. }
  destruct (truthy sd).
  - destruct (makedirs_cases (join dp sd) st) as [[_ ->]| ->].
    + exists (Raise OSError), st. repeat split; auto; discriminate.
    + unfold ret at 1. apply Hfin; try reflexivity. simpl. apply union_subseteq_l.
  - unfold ret at 1. apply Hfin; reflexivity.
Qed.

Lemma resolve_filename_reads_only_state G url filename st :
  (resolve_filename G url filename st).2 = st.
Proof.
  destruct (truthy_opt filename) eqn:Et.
  - now rewrite resolve_filename_explicit.
  - destruct (g_req G) as [r|] eqn:Eg.
    + now rewrite (resolve_filename_bound G r).
    + now rewrite resolve_filename_unbound.
Qed.

Lemma resolve_filename_no_fuel G url filename st :
  (resolve_filename G url filename st).1 <> OutOfFuel.
Proof.
  destruct (truthy_opt filename) eqn:Et.
  - now rewrite resolve_filename_explicit.
  - destruct (g_req G) as [r|] eqn:Eg.
    + now rewrite (resolve_filename_bound G r).
    + now rewrite resolve_filename_unbound.
Qed.

(** How a request gets to the fetch, or where it stops before. *)
Lemma do_download_cases vp vf server G url subdir filename overwrite st :
  (exists e, do_download vp vf server G url subdir filename overwrite st = (Raise e, st))
  \/ (exists dp f p st1,
        vp (default [] subdir) = false
        /\ resolve_filename G url filename st = (Ok f, st)
        /\ vf f = false
        /\ g_download_path G = Some dp
        /\ create_final_path dp (default [] subdir) f overwrite st = (Ok p, st1)
        /\ do_download vp vf server G url subdir filename overwrite st
           = fetch_and_report server G url f p st1).
Proof.
  remember (do_download vp vf server G url subdir filename overwrite st) as R eqn:HR.
  unfold do_download, try_ at 1, raise_if_invalid_path in HR.
  destruct (vp (default [] subdir)) eqn:Ep.
  { left. eexists. exact HR. }
  unfold ret at 1 in HR. unfold try_ at 1 in HR.
  pose proof (resolve_filename_reads_only_state G url filename st) as Hst.
  pose proof (resolve_filename_no_fuel G url filename st) as Hnf.
  destruct (resolve_filename G url filename st) as [[f|e|] st0] eqn:Er;
    cbn [fst snd] in Hst, Hnf; subst st0.
  2:{ left. unfold except in HR. destruct (caught e); eexists; exact HR. }
  2:{ now destruct Hnf. }
  unfold try_ at 1, raise_if_invalid_filename in HR.
  destruct (vf f) eqn:Ef.
  { left. eexists. exact HR. }
  unfold ret at 1 in HR. unfold try_ at 1, bind at 1, global_download_path in HR.
  destruct (g_download_path G) as [dp|] eqn:Ed.
  2:{ left. eexists. exact HR. }
  unfold ret at 1 in HR.
  destruct (create_final_path_frame dp (default [] subdir) f overwrite st)
    as (o & st1 & Ec & Hfuel & Hraise & _).
  rewrite Ec in HR. destruct o as [p|e|].
  - right. exists dp, f, p, st1. repeat split; auto.
  - left. rewrite (Hraise e eq_refl) in HR. unfold except in HR.
    destruct (caught e); eexists; exact HR.
  - now destruct Hfuel.
Qed.

End RunFacts.

Import RunFacts.

Module TailFacts.

Lemma except_run G url fn p e st :
  except G url fn (Some p) e st
  = if caught e then handle_download_failure G url fn p (Some e) st
    else (Raise e, st).
Proof. unfold except. now destruct (caught e). Qed.

Lemma fetch_and_report_run server G url f p st1 :
  fetch_and_report server G url f p st1 =
  match download_and_save_file server G url p
          (State (fs st1) (bus st1) (log st1 ++ [DEBUG]) (net st1)) with
  | (Ok _, s1) =>
      if g_hass G
      then (Ok tt, State (fs s1) (bus s1 ++ [Event completed_event url (Some f)])
                     (log s1 ++ [DEBUG]) (net s1))
      else (Raise (NameError "hass"),
            State (fs s1) (bus s1) (log s1 ++ [DEBUG]) (net s1))
  | (Raise e, s1) => except G url (Some f) (Some p) e s1
  | (OutOfFuel, s1) => (OutOfFuel, s1)
  end.
Proof.
  unfold fetch_and_report, try_, bind at 1, logger at 1. unfold bind at 1.
  destruct (download_and_save_file _ _ _ _ _) as [[[]|e|] s1]; try reflexivity.
  unfold bind, logger, global_hass, bus_fire, ret, raise, except.
  destruct (g_hass G); reflexivity.
Qed.

(** Every way [download_and_save_file] can end. *)
Lemma download_and_save_file_summary server G url p st :
  exists o s1,
    download_and_save_file server G url p st = (o, s1)
    /\ net s1 = net st ++ [url]
    /\ dirs (fs s1) = dirs (fs st)
    /\ (forall k, k <> key_of p -> files (fs s1) !! k = files (fs st) !! k)
    /\ ((o = Ok tt /\ (bus s1 = bus st
                       \/ (g_hass G = true
                           /\ bus s1 = bus st ++ [Event failed_event url None])))
        \/ (exists e, o = Raise e /\ bus s1 = bus st)).
Proof.
  destruct (server url) as [e|r] eqn:Es.
  { exists (Raise e), (State (fs st) (bus st) (log st) (net st ++ [url])).
    unfold download_and_save_file, bind, requests_get. rewrite Es.
    repeat split; auto. right. now exists e. }
  destruct (decide (status_code r = 200)) as [Hr|Hr].
  - destruct (isdir_key (fs st) (key_of p)
              || negb (isdir_key (fs st) (parent_of p))) eqn:Eo.
    + exists (Raise OSError), (State (fs st) (bus st) (log st) (net st ++ [url])).
      split.
      { unfold download_and_save_file, bind at 1, requests_get.
        rewrite Es, Hr. change (200 =? 200) with true. cbv iota.
        unfold bind, open_wb. cbn [fs bus log net]. now rewrite Eo. }
      repeat split; auto. right. now exists OSError.
    + apply orb_false_iff in Eo as [E1 E2]. apply negb_false_iff in E2.
      destruct (download_and_save_file_stream server G url p r st Es Hr E1 E2)
        as (s1 & -> & Hf & Hd & Hb & Hl & Hn).
      eexists _, s1. split; [reflexivity|]. split; [assumption|].
      split; [assumption|]. split.
      { intros k Hk. rewrite Hf. now apply lookup_insert_ne. }
      destruct (stream_error r) as [e|]; [right; now exists e|left; auto].
  - destruct (download_and_save_file_non_200_run server G url p r st Es Hr)
      as (s1 & -> & Hf & Hd & Hb & Hl & Hn).
    eexists _, s1. split; [reflexivity|]. split; [assumption|].
    split; [assumption|]. split.
    { intros k Hk. rewrite Hf. unfold cleaned. destruct (truthy p); [|reflexivity].
      now apply lookup_delete_ne. }
    destruct (g_hass G); [left; auto|right; eexists; auto].
Qed.

(** Every way the fetch and its report can end. *)
Lemma fetch_and_report_summary server G url f p st1 :
  exists o s2,
    fetch_and_report server G url f p st1 = (o, s2)
    /\ net s2 = net st1 ++ [url]
    /\ dirs (fs s2) = dirs (fs st1)
    /\ (forall k, k <> key_of p -> files (fs s2) !! k = files (fs st1) !! k)
    /\ ((exists e, o = Raise e /\ bus s2 = bus st1)
        \/ (o = Ok tt /\ reported url f (bus st1) (bus s2))).
Proof.
  rewrite fetch_and_report_run.
  destruct (download_and_save_file_summary server G url p
              (State (fs st1) (bus st1) (log st1 ++ [DEBUG]) (net st1)))
    as (o & s1 & -> & Hn & Hd & Hf & Hb).
  cbn [fs bus log net] in *.
  destruct Hb as [[-> Hb]|(e & -> & Hb)].
  - destruct Hb as [Hb|[Hh Hb]].
    + destruct (g_hass G); eexists _, _; (split; [reflexivity|]);
        cbn [fs bus log net]; repeat split; auto.
      * right. split; [reflexivity|]. left. now rewrite Hb.
      * left. eexists. auto.
    + rewrite Hh. eexists _, _. split; [reflexivity|]. cbn [fs bus log net].
      repeat split; auto. right. split; [reflexivity|]. right. left.
      rewrite Hb, <- app_assoc. reflexivity.
  - rewrite except_run. destruct (caught e).
    + destruct (handle_download_failure_run G url (Some f) p (Some e) s1)
        as (s2 & -> & Hf2 & Hd2 & Hb2 & Hl2 & Hn2).
      eexists _, s2. split; [reflexivity|].
      split; [congruence|]. split; [congruence|]. split.
      { intros k Hk. rewrite Hf2, <- (Hf k Hk). unfold cleaned.
        destruct (truthy p); [|reflexivity]. now apply lookup_delete_ne. }
      destruct (g_hass G).
      * right. split; [reflexivity|]. right. right. now rewrite Hb2, Hb.
      * left. eexists. split; [reflexivity|]. now rewrite Hb2.
    + eexists _, s1. split; [reflexivity|]. repeat split; auto.
      left. eexists. auto.
Qed.

End TailFacts.

Import TailFacts.

(** X12. However a request ends, the bus tells it apart: a call of
    [do_download] that raises has fired no event at all, and a call that
    returns has fired [download_completed] alone, [download_failed]
    followed by [download_completed], or [download_failed] alone, each
    with the url of the request.  Nothing that was on the bus is removed,
    and the call always ends. *)
Theorem do_download_events
    (invalid_path invalid_filename : str -> bool) (server : str -> reply)
    (G : genv) (url : str) (subdir filename : option str) (overwrite : bool)
    (st : state) :
  let o := do_download invalid_path invalid_filename server G
             url subdir filename overwrite st in
  (exists e, o.1 = Raise e /\ bus o.2 = bus st)
  \/ (o.1 = Ok tt /\ exists f, reported url f (bus st) (bus o.2)).
Proof.
  intros o. unfold o.
  destruct (do_download_cases invalid_path invalid_filename server G url subdir
              filename overwrite st)
    as [(e & ->)|(dp & f & p & st1 & _ & _ & _ & _ & Ec & ->)].
  { left. now exists e. }
  destruct (create_final_path_frame dp (default [] subdir) f overwrite st)
    as (o1 & st1' & Ec' & _ & _ & _ & _ & Hb & _).
  rewrite Ec in Ec'. injection Ec' as <- <-.
  destruct (fetch_and_report_summary server G url f p st1)
    as (o2 & s2 & -> & _ & _ & _ & [(e & -> & Hb2)|[-> Hrep]]); cbn [fst snd].
  - left. exists e. split; [reflexivity|congruence].
  - right. split; [reflexivity|]. exists f. now rewrite <- Hb.
Qed.

(** X13. A request contacts the network at most once, for its own url,
    and only when both validators have accepted it: the URLs requested
    after the call are those before it, with the url of the request added
    once when the subdirectory and the resolved filename passed. *)
Theorem do_download_requests_once
    (invalid_path invalid_filename : str -> bool) (server : str -> reply)
    (G : genv) (url : str) (subdir filename : option str) (overwrite : bool)
    (st : state) :
  let o := do_download invalid_path invalid_filename server G
             url subdir filename overwrite st in
  net o.2 = net st
  \/ (net o.2 = net st ++ [url]
      /\ invalid_path (default [] subdir) = false
      /\ exists f, resolve_filename G url filename st = (Ok f, st)
                   /\ invalid_filename f = false).
Proof.
  intros o. unfold o.
  destruct (do_download_cases invalid_path invalid_filename server G url subdir
              filename overwrite st)
    as [(e & ->)|(dp & f & p & st1 & Hp & Hr & Hf & _ & Ec & ->)].
  { now left. }
  destruct (create_final_path_frame dp (default [] subdir) f overwrite st)
    as (o1 & st1' & Ec' & _ & _ & _ & _ & _ & _ & Hn).
  rewrite Ec in Ec'. injection Ec' as <- <-.
  destruct (fetch_and_report_summary server G url f p st1)
    as (o2 & s2 & -> & Hn2 & _); cbn [fst snd].
  right. split; [congruence|]. split; [assumption|]. now exists f.
Qed.

(** X14. A request changes at most one file and removes no directory:
    there is a path such that every file elsewhere is after the call as
    it was before, and every directory there was is still there. *)
Theorem do_download_touches_one_file
    (invalid_path invalid_filename : str -> bool) (server : str -> reply)
    (G : genv) (url : str) (subdir filename : option str) (overwrite : bool)
    (st : state) :
  let o := do_download invalid_path invalid_filename server G
             url subdir filename overwrite st in
  (exists k, forall k', k' <> k -> files (fs o.2) !! k' = files (fs st) !! k')
  /\ dirs (fs st) ⊆ dirs (fs o.2).
Proof.
  intros o. unfold o.
  destruct (do_download_cases invalid_path invalid_filename server G url subdir
              filename overwrite st)
    as [(e & ->)|(dp & f & p & st1 & _ & _ & _ & _ & Ec & ->)].
  { split; [exists (false, []); auto|reflexivity]. }
  destruct (create_final_path_frame dp (default [] subdir) f overwrite st)
    as (o1 & st1' & Ec' & _ & _ & Hf & Hd & _).
  rewrite Ec in Ec'. injection Ec' as <- <-.
  destruct (fetch_and_report_summary server G url f p st1)
    as (o2 & s2 & -> & _ & Hd2 & Hf2 & _); cbn [fst snd].
  split; [|now rewrite Hd2].
  exists (key_of p). intros k' Hk. now rewrite (Hf2 k' Hk), Hf.
Qed.

Module ScenarioFacts.

Lemma do_download_reaches vp vf server G url subdir filename overwrite st f p st1 :
  reaches_fetch vp vf G url subdir filename overwrite st f p st1 ->
  do_download vp vf server G url subdir filename overwrite st
    = fetch_and_report server G url f p st1
  /\ files (fs st1) = files (fs st)
  /\ bus st1 = bus st /\ net st1 = net st.
Proof.
  intros (Hp & Hr & Hf & dp & Hd & Hc). split.
  - unfold do_download, try_ at 1, raise_if_invalid_path. rewrite Hp.
    unfold ret at 1. unfold try_ at 1. rewrite Hr.
    unfold try_ at 1, raise_if_invalid_filename. rewrite Hf.
    unfold ret at 1. unfold try_ at 1, bind at 1, global_download_path.
    rewrite Hd. unfold ret at 1. rewrite Hc. reflexivity.
  - destruct (create_final_path_frame dp (default [] subdir) f overwrite st)
      as (o1 & st1' & Ec' & _ & _ & H1 & _ & H2 & _ & H3).
    rewrite Hc in Ec'. injection Ec' as <- <-. auto.
Qed.

Lemma download_and_save_file_fails server G url p e st :
  server url = Fails e ->
  download_and_save_file server G url p st
  = (Raise e, State (fs st) (bus st) (log st) (net st ++ [url])).
Proof.
  intros Hs. unfold download_and_save_file, bind, requests_get. now rewrite Hs.
Qed.

Lemma reaches_fetch_example :
  reaches_fetch SpecValidator.invalid_path SpecValidator.invalid_filename
    bound_globals url_test None None false st0 (py "test.txt") (py "/d/test.txt") st0.
Proof.
  split; [reflexivity|]. split; [reflexivity|]. split; [reflexivity|].
  exists (py "/d"). split; reflexivity.
Qed.

End ScenarioFacts.

Import ScenarioFacts.

(** X15. A request that gets as far as the fetch and is answered by 200
    with an unbroken stream, to a path that can be opened and with [hass]
    bound, returns after writing the whole body to the allocated path and
    firing exactly one event, [download_completed] with the url and the
    resolved filename; the URL was requested once and no other file
    changed. *)
Theorem do_download_completes
    (invalid_path invalid_filename : str -> bool) (server : str -> reply)
    (G : genv) (url : str) (subdir filename : option str) (overwrite : bool)
    (st : state) (f p : str) (st1 : state) (r : response) :
  reaches_fetch invalid_path invalid_filename G url subdir filename overwrite st f p st1 ->
  g_hass G = true ->
  server url = Responds r -> status_code r = 200 -> stream_error r = None ->
  isdir_key (fs st1) (key_of p) = false ->
  isdir_key (fs st1) (parent_of p) = true ->
  let o := do_download invalid_path invalid_filename server G
             url subdir filename overwrite st in
  o.1 = Ok tt
  /\ files (fs o.2) !! key_of p = Some (concat (chunks r))
  /\ (forall k, k <> key_of p -> files (fs o.2) !! k = files (fs st) !! k)
  /\ bus o.2 = bus st ++ [Event completed_event url (Some f)]
  /\ net o.2 = net st ++ [url].
Proof.
  intros Hreach Hh Hs Hr He Hnd Hpd o. unfold o.
  destruct (do_download_reaches _ _ server _ _ _ _ _ _ _ _ _ Hreach)
    as (-> & Hf1 & Hb1 & Hn1).
  rewrite fetch_and_report_run.
  destruct (download_and_save_file_stream server G url p r
              (State (fs st1) (bus st1) (log st1 ++ [DEBUG]) (net st1)) Hs Hr Hnd Hpd)
    as (s1 & -> & Hf & Hd & Hb & Hl & Hn).
  rewrite He, Hh. cbn [fst snd fs bus log net] in *.
  split; [reflexivity|]. rewrite Hf.
  split; [apply lookup_insert_eq|].
  split; [intros k Hk; rewrite <- Hf1; now apply lookup_insert_ne|].
  split; congruence.
Qed.

Lemma do_download_completes_witness :
  let o := do_download SpecValidator.invalid_path SpecValidator.invalid_filename
             server_hello bound_globals url_test None None false st0 in
  o.1 = Ok tt
  /\ files (fs o.2) !! key_of (py "/d/test.txt") = Some (concat (chunks hello))
  /\ (forall k, k <> key_of (py "/d/test.txt") ->
                files (fs o.2) !! k = files (fs st0) !! k)
  /\ bus o.2 = bus st0 ++ [Event completed_event url_test (Some (py "test.txt"))]
  /\ net o.2 = net st0 ++ [url_test].
Proof.
  apply (do_download_completes SpecValidator.invalid_path
           SpecValidator.invalid_filename server_hello bound_globals url_test
           None None false st0 (py "test.txt") (py "/d/test.txt") st0 hello
           reaches_fetch_example); reflexivity.
Defined.

(** X16. A request that gets as far as the fetch and is answered by a
    status other than 200 still returns normally when [hass] is bound:
    the file at the allocated path is deleted, [download_failed] is fired
    with filename [None], and [download_completed] with the resolved
    filename is fired after it. *)
Theorem do_download_non_200
    (invalid_path invalid_filename : str -> bool) (server : str -> reply)
    (G : genv) (url : str) (subdir filename : option str) (overwrite : bool)
    (st : state) (f p : str) (st1 : state) (r : response) :
  reaches_fetch invalid_path invalid_filename G url subdir filename overwrite st f p st1 ->
  g_hass G = true -> truthy p = true ->
  server url = Responds r -> status_code r <> 200 ->
  let o := do_download invalid_path invalid_filename server G
             url subdir filename overwrite st in
  o.1 = Ok tt
  /\ isfile (fs o.2) p = false
  /\ (forall k, k <> key_of p -> files (fs o.2) !! k = files (fs st) !! k)
  /\ bus o.2 = bus st ++ [Event failed_event url None;
                          Event completed_event url (Some f)].
Proof.
  intros Hreach Hh Ht Hs Hr o. unfold o.
  destruct (do_download_reaches _ _ server _ _ _ _ _ _ _ _ _ Hreach)
    as (-> & Hf1 & Hb1 & Hn1).
  rewrite fetch_and_report_run.
  destruct (download_and_save_file_non_200_run server G url p r
              (State (fs st1) (bus st1) (log st1 ++ [DEBUG]) (net st1)) Hs Hr)
    as (s1 & -> & Hf & Hd & Hb & Hl & Hn).
  rewrite Hh in *. cbn [fst snd fs bus log net] in *.
  unfold cleaned in Hf. rewrite Ht in Hf.
  split; [reflexivity|]. split.
  { unfold isfile. apply bool_decide_eq_false. rewrite Hf, lookup_delete_eq.
    now intros [? ?]. }
  split; [intros k Hk; rewrite Hf, <- Hf1; now apply lookup_delete_ne|].
  rewrite Hb, Hb1, <- app_assoc. reflexivity.
Qed.

Lemma do_download_non_200_witness :
  let o := do_download SpecValidator.invalid_path SpecValidator.invalid_filename
             server_404 bound_globals url_test None None false st0 in
  o.1 = Ok tt
  /\ isfile (fs o.2) (py "/d/test.txt") = false
  /\ (forall k, k <> key_of (py "/d/test.txt") ->
                files (fs o.2) !! k = files (fs st0) !! k)
  /\ bus o.2 = bus st0 ++ [Event failed_event url_test None;
                           Event completed_event url_test (Some (py "test.txt"))].
Proof.
  apply (do_download_non_200 SpecValidator.invalid_path
           SpecValidator.invalid_filename server_404 bound_globals url_test
           None None false st0 (py "test.txt") (py "/d/test.txt") st0 not_found
           reaches_fetch_example); [reflexivity|reflexivity|reflexivity|discriminate].
Defined.

(** X17. A [ConnectionError] or [ValueError] met by the fetch, whether
    [requests.get] raises it or the stream of a response 200 breaks with
    it, is swallowed when [hass] is bound: the request returns normally,
    no file is left at the allocated path (also none that was there
    before), and [download_failed] is fired once, with the resolved
    filename. *)
Theorem do_download_cleans_up_after_caught_error
    (invalid_path invalid_filename : str -> bool) (server : str -> reply)
    (G : genv) (url : str) (subdir filename : option str) (overwrite : bool)
    (st : state) (f p : str) (st1 : state) (e : exn) :
  reaches_fetch invalid_path invalid_filename G url subdir filename overwrite st f p st1 ->
  g_hass G = true -> truthy p = true -> caught e = true ->
  server url = Fails e
  \/ (exists r, server url = Responds r /\ status_code r = 200
        /\ stream_error r = Some e
        /\ isdir_key (fs st1) (key_of p) = false
        /\ isdir_key (fs st1) (parent_of p) = true) ->
  let o := do_download invalid_path invalid_filename server G
             url subdir filename overwrite st in
  o.1 = Ok tt
  /\ isfile (fs o.2) p = false
  /\ (forall k, k <> key_of p -> files (fs o.2) !! k = files (fs st) !! k)
  /\ bus o.2 = bus st ++ [Event failed_event url (Some f)].
Proof.
  intros Hreach Hh Ht Hc Hsrv o. unfold o.
  destruct (do_download_reaches _ _ server _ _ _ _ _ _ _ _ _ Hreach)
    as (-> & Hf1 & Hb1 & Hn1).
  rewrite fetch_and_report_run.
  assert (Hdsf : exists s1,
    download_and_save_file server G url p
      (State (fs st1) (bus st1) (log st1 ++ [DEBUG]) (net st1)) = (Raise e, s1)
    /\ (forall k, k <> key_of p -> files (fs s1) !! k = files (fs st1) !! k)
    /\ bus s1 = bus st1).
  { destruct Hsrv as [Hs|(r & Hs & Hr & He & Hnd & Hpd)].
    - rewrite (download_and_save_file_fails server G url p e _ Hs).
      eexists. split; [reflexivity|]. auto.
    - destruct (download_and_save_file_stream server G url p r
                  (State (fs st1) (bus st1) (log st1 ++ [DEBUG]) (net st1)) Hs Hr Hnd Hpd)
        as (s1 & -> & Hf & Hd & Hb & Hl & Hn).
      rewrite He. exists s1. split; [reflexivity|]. split; [|assumption].
      intros k Hk. rewrite Hf. now apply lookup_insert_ne. }
  destruct Hdsf as (s1 & -> & Hfr & Hb).
  rewrite except_run, Hc.
  destruct (handle_download_failure_run G url (Some f) p (Some e) s1)
    as (s2 & -> & Hf2 & Hd2 & Hb2 & Hl2 & Hn2).
  rewrite Hh in *. cbn [fst snd]. unfold cleaned in Hf2. rewrite Ht in Hf2.
  split; [reflexivity|]. split.
  { unfold isfile. apply bool_decide_eq_false. rewrite Hf2, lookup_delete_eq.
    now intros [? ?]. }
  split.
  { intros k Hk. rewrite Hf2, lookup_delete_ne, (Hfr k Hk), Hf1 by auto. reflexivity. }
  congruence.
Qed.

Lemma do_download_cleans_up_after_caught_error_witness :
  let o := do_download SpecValidator.invalid_path SpecValidator.invalid_filename
             server_broken bound_globals url_test None None false st0 in
  o.1 = Ok tt
  /\ isfile (fs o.2) (py "/d/test.txt") = false
  /\ (forall k, k <> key_of (py "/d/test.txt") ->
                files (fs o.2) !! k = files (fs st0) !! k)
  /\ bus o.2 = bus st0 ++ [Event failed_event url_test (Some (py "test.txt"))].
Proof.
  apply (do_download_cleans_up_after_caught_error SpecValidator.invalid_path
           SpecValidator.invalid_filename server_broken bound_globals url_test
           None None false st0 (py "test.txt") (py "/d/test.txt") st0 ConnectionError
           reaches_fetch_example); [reflexivity|reflexivity|reflexivity|].
  right. exists broken. repeat split; reflexivity.
Defined.

(** X18. An exception of the fetch that is neither a [ConnectionError]
    nor a [ValueError], such as the [ChunkedEncodingError] of a stream that
    a protocol error cuts, is not caught: the request raises it, fires no
    event, and leaves the part of the body received so far at the
    allocated path. *)
Theorem do_download_uncaught_error_leaves_partial_file
    (invalid_path invalid_filename : str -> bool) (server : str -> reply)
    (G : genv) (url : str) (subdir filename : option str) (overwrite : bool)
    (st : state) (f p : str) (st1 : state) (r : response) (e : exn) :
  reaches_fetch invalid_path invalid_filename G url subdir filename overwrite st f p st1 ->
  caught e = false ->
  server url = Responds r -> status_code r = 200 -> stream_error r = Some e ->
  isdir_key (fs st1) (key_of p) = false ->
  isdir_key (fs st1) (parent_of p) = true ->
  let o := do_download invalid_path invalid_filename server G
             url subdir filename overwrite st in
  o.1 = Raise e
  /\ files (fs o.2) !! key_of p = Some (concat (chunks r))
  /\ bus o.2 = bus st.
Proof.
  intros Hreach Hc Hs Hr He Hnd Hpd o. unfold o.
  destruct (do_download_reaches _ _ server _ _ _ _ _ _ _ _ _ Hreach)
    as (-> & Hf1 & Hb1 & Hn1).
  rewrite fetch_and_report_run.
  destruct (download_and_save_file_stream server G url p r
              (State (fs st1) (bus st1) (log st1 ++ [DEBUG]) (net st1)) Hs Hr Hnd Hpd)
    as (s1 & -> & Hf & Hd & Hb & Hl & Hn).
  rewrite He, except_run, Hc. cbn [fst snd fs bus log net] in *.
  split; [reflexivity|]. split; [rewrite Hf; apply lookup_insert_eq|congruence].
Qed.

Lemma do_download_uncaught_error_leaves_partial_file_witness :
  let o := do_download SpecValidator.invalid_path SpecValidator.invalid_filename
             server_cut_off bound_globals url_test None None false st0 in
  o.1 = Raise RequestError
  /\ files (fs o.2) !! key_of (py "/d/test.txt") = Some (concat (chunks cut_off))
  /\ bus o.2 = bus st0.
Proof.
  apply (do_download_uncaught_error_leaves_partial_file SpecValidator.invalid_path
           SpecValidator.invalid_filename server_cut_off bound_globals url_test
           None None false st0 (py "test.txt") (py "/d/test.txt") st0 cut_off
           RequestError reaches_fetch_example); reflexivity.
Defined.



Module RepeatFacts.

Lemma create_final_path_free dp sd f st q st' :
  create_final_path dp sd f false st = (Ok q, st') ->
  isfile (fs st') q = false /\ files (fs st') = files (fs st).
Proof.
  unfold create_final_path, bind. destruct (truthy sd).
  - destruct (makedirs_cases (join dp sd) st) as [[_ ->]| ->]; [discriminate|].
    unfold ret at 1. cbn [negb].
    match goal with
    | |- ensure_unique_filename ?p ?s = _ -> _ =>
        destruct (ensure_unique_filename_spec p s) as (q' & -> & Hfree & _)
    end.
    intros [= <- <-]. auto.
  - unfold ret at 1. cbn [negb].
    destruct (ensure_unique_filename_spec (join dp f) st) as (q' & -> & Hfree & _).
    intros [= <- <-]. auto.
Qed.

Lemma allocate_and_fetch_inv server G dp sd f ow url st p st' :
  allocate_and_fetch server G dp sd f ow url st = (Ok p, st') ->
  exists sa, create_final_path dp sd f ow st = (Ok p, sa)
    /\ download_and_save_file server G url p sa = (Ok tt, st').
Proof.
  unfold allocate_and_fetch, bind.
  destruct (create_final_path dp sd f ow st) as [[q| |] sa]; try discriminate.
  destruct (download_and_save_file server G url q sa) as [[[]| |] sb] eqn:E;
    try discriminate.
  unfold ret. intros [= <- <-]. now exists sa.
Qed.

Lemma download_and_save_file_ok_200 server G url p r st st' :
  download_and_save_file server G url p st = (Ok tt, st') ->
  server url = Responds r -> status_code r = 200 ->
  files (fs st') = <[key_of p := concat (chunks r)]> (files (fs st)).
Proof.
  intros E Hs Hr.
  destruct (isdir_key (fs st) (key_of p)
            || negb (isdir_key (fs st) (parent_of p))) eqn:Eo.
  - exfalso. revert E. unfold download_and_save_file, bind at 1, requests_get.
    rewrite Hs, Hr. change (200 =? 200) with true. cbv iota.
    unfold bind, open_wb. cbn [fs bus log net]. now rewrite Eo.
  - apply orb_false_iff in Eo as [E1 E2]. apply negb_false_iff in E2.
    destruct (download_and_save_file_stream server G url p r st Hs Hr E1 E2)
      as (s1 & E' & Hf & _).
    rewrite E' in E. injection E as _ <-. exact Hf.
Qed.

End RepeatFacts.

Import RepeatFacts.

(** X20. Without [overwrite] a request never writes over the file of a
    former one: when a request answered by 200 has succeeded and the same
    request succeeds again, the second is given another path, and the
    file the first wrote is there with the body of the first. *)
Theorem repeated_request_keeps_first_file
    (server1 server2 : str -> reply) (G : genv)
    (download_path subdir filename url : str) (r1 : response)
    (st st1 st2 : state) (p1 p2 : str) :
  allocate_and_fetch server1 G download_path subdir filename false url st
    = (Ok p1, st1) ->
  server1 url = Responds r1 -> status_code r1 = 200 ->
  allocate_and_fetch server2 G download_path subdir filename false url st1
    = (Ok p2, st2) ->
  key_of p2 <> key_of p1
  /\ files (fs st1) !! key_of p1 = Some (concat (chunks r1))
  /\ files (fs st2) !! key_of p1 = Some (concat (chunks r1)).
Proof.
  intros H1 Hs1 Hr1 H2.
  apply allocate_and_fetch_inv in H1 as (sa & Hc1 & Hd1).
  apply allocate_and_fetch_inv in H2 as (sb & Hc2 & Hd2).
  pose proof (download_and_save_file_ok_200 _ _ _ _ _ _ _ Hd1 Hs1 Hr1) as Hf1.
  assert (Hp1 : files (fs st1) !! key_of p1 = Some (concat (chunks r1))).
  { rewrite Hf1. apply lookup_insert_eq. }
  destruct (create_final_path_free _ _ _ _ _ _ Hc2) as [Hfree Hfb].
  assert (Hne : key_of p2 <> key_of p1).
  { intros E. unfold isfile in Hfree. apply bool_decide_eq_false in Hfree.
    apply Hfree. rewrite Hfb, E. eexists. exact Hp1. }
  split; [assumption|]. split; [assumption|].
  destruct (download_and_save_file_summary server2 G url p2 sb)
    as (o & s2 & E & _ & _ & Hfr & _).
  rewrite Hd2 in E. injection E as _ <-.
  pose proof (Hfr (key_of p1) (fun E => Hne (eq_sym E))) as Hx.
  rewrite Hfb in Hx. exact (eq_trans Hx Hp1).
Qed.

Lemma repeated_request_keeps_first_file_witness :
  key_of (py "/d/test_2..txt") <> key_of (py "/d/test.txt")
  /\ files (fs (allocate_and_fetch server_hello module_globals (py "/d") (py "")
                  (py "test.txt") false url_test st0).2)
       !! key_of (py "/d/test.txt") = Some (concat (chunks hello))
  /\ files (fs (allocate_and_fetch server_hello module_globals (py "/d") (py "")
                  (py "test.txt") false url_test
                  (allocate_and_fetch server_hello module_globals (py "/d") (py "")
                     (py "test.txt") false url_test st0).2).2)
       !! key_of (py "/d/test.txt") = Some (concat (chunks hello)).
Proof.
  apply (repeated_request_keeps_first_file server_hello server_hello module_globals
           (py "/d") (py "") (py "test.txt") url_test hello st0).
  - vm_compute. reflexivity.
  - reflexivity.
  - reflexivity.
  - vm_compute. reflexivity.
Defined.

(** * The request with [overwrite] in the module as written *)

Module UnboundFacts.

Lemma do_download_module_globals_run
    (invalid_path invalid_filename : str -> bool) (server : str -> reply)
    (url : str) (subdir filename : option str) (overwrite : bool) (st : state) :
  do_download invalid_path invalid_filename server module_globals
    url subdir filename overwrite st
  = (Raise (if invalid_path (default [] subdir) then UnboundLocalError "final_path"
            else if negb (truthy_opt filename) then NameError "req"
            else if invalid_filename (default [] filename)
                 then UnboundLocalError "final_path"
                 else NameError "download_path"), st).
Proof.
  unfold do_download, try_, raise_if_invalid_path.
  destruct (invalid_path (default [] subdir)) eqn:Ep; [reflexivity|].
  unfold ret at 1. destruct (truthy_opt filename) eqn:Et; simpl negb; cbv iota.
  - rewrite resolve_filename_explicit by assumption.
    unfold raise_if_invalid_filename.
    destruct (invalid_filename (default [] filename)); reflexivity.
  - rewrite resolve_filename_unbound by auto. reflexivity.
Qed.

End UnboundFacts.

(** C8. With the namespace as the module leaves it a request with
    [overwrite] set writes nothing, however often it is repeated: each
    call ends in the same uncaught [NameError] before the allocator is
    entered, and after two calls the state, and so every file, is as it
    was before the first. *)
Theorem overwrite_request_writes_nothing
    (invalid_path invalid_filename : str -> bool) (server : str -> reply)
    (url : str) (subdir filename : option str) (st : state) :
  let o1 := do_download invalid_path invalid_filename server module_globals
              url subdir filename true st in
  let o2 := do_download invalid_path invalid_filename server module_globals
              url subdir filename true o1.2 in
  exists e,
    o1 = (Raise e, st) /\ o2 = (Raise e, st) /\ is_NameError e = true
    /\ (forall k, files (fs o2.2) !! k = files (fs st) !! k).
Proof.
  intros o1 o2. unfold o2, o1.
  rewrite !UnboundFacts.do_download_module_globals_run. cbn [fst snd].
  rewrite ?UnboundFacts.do_download_module_globals_run. cbn [fst snd].
  eexists. split; [reflexivity|]. split; [reflexivity|]. split; [|reflexivity].
  destruct (invalid_path _); [reflexivity|].
  destruct (negb _); [reflexivity|].
  destruct (invalid_filename _); reflexivity.
Qed.

Example overwrite_request_writes_nothing_ex :
  let o1 := do_download SpecValidator.invalid_path SpecValidator.invalid_filename
              server_hello module_globals url_test None (Some (py "test.txt")) true st0 in
  let o2 := do_download SpecValidator.invalid_path SpecValidator.invalid_filename
              server_hello module_globals url_test None (Some (py "test.txt")) true o1.2 in
  o1.1 = Raise (NameError "download_path")
  /\ o2.1 = Raise (NameError "download_path")
  /\ isfile (fs o2.2) (py "/d/test.txt") = false.
Proof. vm_compute. repeat split; reflexivity. Qed.
